(** * graphql-upload-nextjs: the multipart upload orchestrator of [src/index.ts]

    A shallow embedding of [Upload], [extractFiles], [sanitizeAndValidateJSON],
    [processUpload] and [uploadProcess], and the properties the specification
    states about them.

    Modelling conventions.
    - A JavaScript object is given by its kind (an ordinary object or an
      array) and by the list of its own enumerable properties.  [JSON.parse]
      is taken to list them in the order [Object.keys] and [for ... in]
      enumerate them; an assignment adds a new property at the end of the
      list.
    - The prototype chain is followed where the code reads or writes through
      it.  The read [files[fileKey]] on the object made by [{}] finds the
      members of [Object.prototype]; the assignments [files[key] = value] and
      [operations.variables[variableName] = upload] replace the prototype of
      the object when the key is [__proto__]; on an array the key [length]
      is not an ordinary property.  The other reads of the code are of names
      that no prototype has ([query], [variables], [data], [errors], the
      index [0]) or of keys listed by [Object.keys].
    - Numbers are integers ([Z]) where the program has sizes, and rationals
      ([Q]) for parsed JSON numbers and for [maxFileSize / (1024 * 1024)],
      a division by a power of two.
    - The binding tasks run concurrently: each call of [processUpload] runs
      up to its first [await] inside the loop, and the suspended tasks are
      resumed, each in one piece, in an order given by a schedule.
    - [throw] and an early [return] are the two abrupt completions of a
      computation; [uploadProcess] is a function that may also fall off its end.
    - What a run does to the outside world (the binding tasks it dispatches, the
      streams it opens, the variables it assigns, the calls to the execution
      engine) is recorded, in order, in a log of events.
    - The library functions [JSON.parse], [fileTypeFromBuffer], [isText] and
      the number-to-string conversion of template literals are parameters,
      and so is what the [File] objects of the platform have on their
      prototype chain.
    - [console.error] output is not modelled. *)

From Stdlib Require Import ZArith QArith Ascii.
From stdpp Require Import base option list strings gmap pretty.

Local Close Scope Q_scope.
Local Open Scope string_scope.
Local Open Scope list_scope.

(** ** JavaScript values *)

(** The two kinds of object [JSON.parse] makes: an ordinary object, whose
    prototype is [Object.prototype], and an array, whose [length] is kept by
    the language. *)
Inductive Class : Type :=
  | ClassObject
  | ClassArray.

(** Values that [JSON.parse] produces, that property reads may yield
    ([JUndefined]) and that the execution engine returns.  An object is given
    by its kind and its own enumerable properties. *)
#[warnings="-register-all"]
Inductive JValue : Type :=
  | JUndefined
  | JNull
  | JBool (b : bool)
  | JNum (q : Q)
  | JStr (s : string)
  | JObject (cls : Class) (props : list (string * JValue)).

(** A JSON object [{"k": v, ...}] *)
Abbreviation JObj := (JObject ClassObject).

(** A JSON array [[v0, v1, ...]]: its own enumerable properties are ["0"],
    ["1"], ... *)
Definition JArr (items : list JValue) : JValue :=
  JObject ClassArray (imap (fun i v => (pretty i, v)) items).

(** A thrown value: an [Error] with its message, or anything else. *)
Inductive Thrown : Type :=
  | ThrownError (message : string)
  | ThrownValue (v : JValue).

Definition TypeError (message : string) : Thrown := ThrownError message.
Definition RangeError (message : string) : Thrown := ThrownError message.

(** [!v] is false: the value is truthy. *)
Definition truthy (v : JValue) : bool :=
  match v with
  | JUndefined | JNull => false
  | JBool b => b
  | JNum q => negb (Qeq_bool q 0)
  | JStr s => negb (String.eqb s "")
  | JObject _ _ => true
  end.

(** Own properties of an object, as an ordered association list. *)
Section Properties.
Context {A : Type}.

(** [o[k]] on the own properties: the first entry for [k]. *)
Fixpoint prop_get (props : list (string * A)) (k : string) : option A :=
  match props with
  | [] => None
  | (k', v) :: rest => if String.eqb k' k then Some v else prop_get rest k
  end.

(** [o[k] = v]: overwrite in place, or add a new last property. *)
Fixpoint prop_set (props : list (string * A)) (k : string) (v : A)
  : list (string * A) :=
  match props with
  | [] => [(k, v)]
  | (k', v') :: rest =>
      if String.eqb k' k then (k', v) :: rest
      else (k', v') :: prop_set rest k v
  end.

(** [delete o[k]]. *)
Fixpoint prop_delete (props : list (string * A)) (k : string)
  : list (string * A) :=
  match props with
  | [] => []
  | (k', v') :: rest =>
      if String.eqb k' k then prop_delete rest k
      else (k', v') :: prop_delete rest k
  end.

(** [k] is an own property. *)
Definition owns (props : list (string * A)) (k : string) : bool :=
  match prop_get props k with
  | Some _ => true
  | None => false
  end.
End Properties.

(** [Object.keys(v)] for a parsed JSON object or array. *)
Definition Object_keys (v : JValue) : list string :=
  match v with
  | JObject _ props => props.*1
  | _ => []
  end.

(** A property read [v.k] or [v[k]] for a name [k] that is either an own
    property of [v] or found nowhere ([query], [variables], [data], [errors],
    a key listed by [Object.keys]): a missing property reads as
    [undefined]. *)
Definition member (v : JValue) (k : string) : JValue :=
  match v with
  | JObject _ props => default JUndefined (prop_get props k)
  | _ => JUndefined
  end.

(** ** The [File] descriptor and the [Upload] handle *)

(** A readable stream, by the chunks it delivers until it ends. *)
Definition ReadableStream : Type := list (list Byte.byte).

(** [streamToBuffer]: the chunks are collected and concatenated. *)
Definition streamToBuffer (stream : ReadableStream) : list Byte.byte :=
  let chunks := foldl (fun chunks chunk => chunks ++ [chunk]) [] stream in
  concat chunks.

(** [bufferToStream]: a stream that delivers the buffer, then ends. *)
Definition bufferToStream (buffer : list Byte.byte) : ReadableStream :=
  [buffer].

(** The descriptor of a file; [createReadStream] makes a fresh stream at
    each call. *)
Record File : Type := {
  createReadStream : unit -> ReadableStream;
  encoding : string;
  fileName : string;
  fileSize : Z;
  mimeType : string
}.

Inductive PromiseState (A : Type) : Type :=
  | Pending
  | Fulfilled (value : A)
  | Rejected (reason : Thrown).
Arguments Pending {A}.
Arguments Fulfilled {A} value.
Arguments Rejected {A} reason.

(** The two capabilities of the executor of [new Promise]: each settles a
    pending promise and does nothing to a settled one. *)
Definition Promise_resolve {A} (value : A) (p : PromiseState A) : PromiseState A :=
  match p with
  | Pending => Fulfilled value
  | _ => p
  end.

Definition Promise_reject {A} (reason : Thrown) (p : PromiseState A) : PromiseState A :=
  match p with
  | Pending => Rejected reason
  | _ => p
  end.

Module Upload.
(** [class Upload]: the mutable fields [file] and [promise]; the methods
    [resolve] and [reject] installed by the constructor act on them. *)
Record t : Type := {
  file : option File;
  promise : PromiseState File
}.

(** [new Upload()] *)
Definition new : t := {| file := None; promise := Pending |}.

(** [this.resolve = (file) => { this.file = file; resolve(file) }] *)
Definition resolve (f : File) (u : t) : t :=
  {| file := Some f; promise := Promise_resolve f (promise u) |}.

(** [this.reject = reject] *)
Definition reject (reason : Thrown) (u : t) : t :=
  {| file := file u; promise := Promise_reject reason (promise u) |}.

(** A later call made on the handle. *)
Inductive call : Type :=
  | Resolve (f : File)
  | Reject (reason : Thrown).

Definition apply (u : t) (c : call) : t :=
  match c with
  | Resolve f => resolve f u
  | Reject reason => reject reason u
  end.

Definition run (calls : list call) (u : t) : t := foldl apply u calls.
End Upload.

(** ** The form data of the request *)

Record FormDataFile : Type := {
  lastModified : Z;
  name : string;
  size : Z;
  type : string
}.

(** [FileStream extends FormDataFile]: [stream] is the stream that
    [stream()] opens on the content of the part. *)
Record FileStream : Type := {
  formDataFile :> FormDataFile;
  stream : ReadableStream
}.

Inductive FormDataEntryValue : Type :=
  | EntryText (s : string)
  | EntryFile (f : FileStream).

(** The entries of the form data, in the order [formData.entries()] yields
    them. *)
Definition FormData : Type := list (string * FormDataEntryValue).

(** [formData.get(k)]: the first value of field [k], or [null]. *)
Definition FormData_get (formData : FormData) (k : string)
  : option FormDataEntryValue :=
  prop_get formData k.

(** [request.formData()] either rejects or delivers the form data. *)
Record NextRequest : Type := {
  formData : Thrown + FormData
}.

(** ** The operations envelope *)

(** The value held by a key of [operations.variables]: what was parsed, or
    an [Upload] handle bound by [processUpload]. *)
Inductive Slot : Type :=
  | SlotValue (v : JValue)
  | SlotUpload (u : Upload.t).

Definition slot_truthy (s : Slot) : bool :=
  match s with
  | SlotValue v => truthy v
  | SlotUpload _ => true
  end.

(** [operations.variables]: an object or an array, or whatever else was
    parsed in its place (including [undefined] when the field is absent).
    An object is given by its kind, by the handle that an assignment to
    [__proto__] has made its prototype ([None] as long as its prototype is the
    one it was created with), and by its own enumerable properties. *)
Inductive Variables : Type :=
  | VarsObject (cls : Class) (proto : option Upload.t) (props : list (string * Slot))
  | VarsOther (v : JValue).

Record Operations : Type := {
  query : JValue;
  variables : Variables
}.

Definition toVariables (v : JValue) : Variables :=
  match v with
  | JObject cls props => VarsObject cls None (prod_map id SlotValue <$> props)
  | _ => VarsOther v
  end.

(** The parsed [operations] object seen through the two fields the code
    reads. *)
Definition toOperations (parsed : JValue) : Operations :=
  {| query := member parsed "query";
     variables := toVariables (member parsed "variables") |}.

(** The own enumerable properties of the variables, and the handle that was
    made their prototype. *)
Definition vars_own (vars : Variables) : list (string * Slot) :=
  match vars with
  | VarsObject _ _ props => props
  | VarsOther _ => []
  end.

Definition vars_proto (vars : Variables) : option Upload.t :=
  match vars with
  | VarsObject _ proto _ => proto
  | VarsOther _ => None
  end.

(** [variables[k]] where it reads a parsed value or a handle: the own
    property [k] or, for [__proto__] on an object that does not own that key,
    the handle that was made the prototype, which the accessor of
    [Object.prototype] reads back.  [None] stands for every other outcome of
    the read: [undefined], or a member inherited from the prototype. *)
Definition vars_get (vars : Variables) (k : string) : option Slot :=
  match vars with
  | VarsObject _ proto props =>
      match prop_get props k with
      | Some s => Some s
      | None => if String.eqb k "__proto__" then SlotUpload <$> proto else None
      end
  | VarsOther _ => None
  end.

(** ** Responses, results of the engine, settings *)

(** The body given to [NextResponse.json]. *)
Inductive NextResponse : Type :=
  | JsonError (error : string)
  | JsonData (data errors : JValue)
  | JsonResults (results : list JValue).

(** [subsequentResults]: a finite asynchronous sequence, which may end by
    throwing. *)
Record AsyncIterable : Type := {
  emitted : list JValue;
  failure : option Thrown
}.

Record ResponseBody : Type := {
  kind : string;
  singleResult : JValue;
  initialResult : JValue;
  subsequentResults : AsyncIterable
}.

(** What [await server.executeOperation(...)] gives: a rejection, or a
    response whose [body] may be missing. *)
Inductive Execution : Type :=
  | ExecutionRejects (e : Thrown)
  | ExecutionResponse (body : option ResponseBody).

Record OperationRequest : Type := {
  req_query : JValue;
  req_variables : Variables
}.

Record Server : Type := {
  executeOperation : OperationRequest -> JValue -> Execution
}.

Record Settings : Type := {
  allowedTypes : list string;
  maxFileSize : Z
}.

(** ** Events, completions and the computation monad *)

Inductive Event : Type :=
  (** [const file = files[fileKey]] in the loop of [uploadProcess]: the
      [File] that was read, [None] when the read gave [undefined] or a member
      of the prototype chain that is not a [File] *)
  | EvLookup (fileKey : string) (file : option FileStream)
  (** [processUpload(file, variableName, ...)] is called: a binding task *)
  | EvDispatch (fileKey : string) (file : option FileStream) (variableName : string)
  (** [file.stream()] is opened to be buffered *)
  | EvStream (file : FileStream)
  (** [operations.variables[variableName] = upload] *)
  | EvAssign (variableName : string) (upload : Upload.t)
  (** [server.executeOperation(request, { contextValue })] *)
  | EvExecute (request : OperationRequest) (contextValue : JValue).

Inductive Completion (A : Type) : Type :=
  | Normal (a : A)
  | Throw (e : Thrown)
  | Return (r : NextResponse).
Arguments Normal {A} a.
Arguments Throw {A} e.
Arguments Return {A} r.

(** A computation: how it completes and the events it emitted. *)
Definition M (A : Type) : Type := Completion A * list Event.

Definition ret {A} (a : A) : M A := (Normal a, []).
Definition throw {A} (e : Thrown) : M A := (Throw e, []).
Definition return_ {A} (r : NextResponse) : M A := (Return r, []).
Definition emit (ev : Event) : M unit := (Normal tt, [ev]).

Definition bind {A B} (m : M A) (k : A -> M B) : M B :=
  match m with
  | (Normal a, l1) => let '(c, l2) := k a in (c, l1 ++ l2)
  | (Throw e, l1) => (Throw e, l1)
  | (Return r, l1) => (Return r, l1)
  end.

(** [try { m } catch (error) { handler }] *)
Definition try_catch {A} (m : M A) (handler : Thrown -> M A) : M A :=
  match m with
  | (Throw e, l1) => let '(c, l2) := handler e in (c, l1 ++ l2)
  | _ => m
  end.

Declare Scope js_scope.
Delimit Scope js_scope with js.
Notation "x <- m ;; k" := (bind m (fun x => k))
  (at level 100, m at next level, right associativity) : js_scope.
Notation "m ;; k" := (bind m (fun _ => k))
  (at level 100, right associativity) : js_scope.
Local Open Scope js_scope.

(** [await p] for a promise that is already determined. *)
Definition await {A} (p : Thrown + A) : M A :=
  match p with
  | inl e => throw e
  | inr a => ret a
  end.

Definition completion {A} (m : M A) : Completion A := m.1.
Definition log {A} (m : M A) : list Event := m.2.

(** ** [extractFiles] *)

(** The [files] object, made by the literal [{}]: its own properties, and
    the [File] that an assignment to [__proto__] has made its prototype
    ([None] as long as its prototype is [Object.prototype]). *)
Record Files : Type := {
  files_own : gmap string FileStream;
  files_proto : option FileStream
}.

(** [files[key] = value].  The key [__proto__] is the accessor of
    [Object.prototype]: assigning an object to it replaces the prototype of
    [files] and creates no own property. *)
Definition Files_set (files : Files) (key : string) (value : FileStream) : Files :=
  if String.eqb key "__proto__"
  then {| files_own := files_own files; files_proto := Some value |}
  else {| files_own := <[key := value]> (files_own files);
          files_proto := files_proto files |}.

(** The [File] that [files[key]] reads, if it reads one: an own property or,
    for [__proto__], the prototype that was assigned. *)
Global Instance Files_lookup : Lookup string FileStream Files :=
  fun key files =>
    if String.eqb key "__proto__" then files_proto files
    else files_own files !! key.

(** Every entry whose value is a [File] is assigned to [files] under its
    name, in the order of the entries. *)
Definition extractFiles (formData : FormData) : Files :=
  foldl (fun files '(key, value) =>
           match value with
           | EntryFile f => Files_set files key f
           | EntryText _ => files
           end) {| files_own := ∅; files_proto := None |} formData.

(** What a read [o[k]] gives when [o] does not own [k] and the name is
    looked up on the prototype chain. *)
Inductive Inherited : Type :=
  (** no object of the chain has the name: [undefined] *)
  | NotInherited
  (** a member that is not a [File]: a method, the value of an accessor *)
  | InheritedMember
  (** an accessor that throws when it is called on [o] *)
  | InheritedThrows (e : Thrown).

(** The names of the members of [Object.prototype]. *)
Definition Object_prototype_names : list string :=
  ["constructor"; "hasOwnProperty"; "isPrototypeOf"; "propertyIsEnumerable";
   "toLocaleString"; "toString"; "valueOf"; "__proto__";
   "__defineGetter__"; "__defineSetter__"; "__lookupGetter__"; "__lookupSetter__"].

(** A read on [Object.prototype]: its members are functions, and
    [__proto__] read on an object whose prototype it is gives
    [Object.prototype] itself. *)
Definition Object_prototype (k : string) : Inherited :=
  if bool_decide (k ∈ Object_prototype_names) then InheritedMember
  else NotInherited.

(** The value of [files[fileKey]]: a [File], [undefined], or a member of the
    prototype chain that is not a [File]; such a member has no [size] and no
    [type]. *)
Inductive Member : Type :=
  | MemberFile (file : FileStream)
  | MemberOther
  | MemberUndefined.

Definition Member_file (m : Member) : option FileStream :=
  match m with
  | MemberFile file => Some file
  | _ => None
  end.

(** ** Strings *)

(** [s.split(sep)] for a separator of one character. *)
Fixpoint String_split (sep : ascii) (s : string) : list string :=
  match s with
  | EmptyString => [""]
  | String c rest =>
      if Ascii.eqb c sep then "" :: String_split sep rest
      else match String_split sep rest with
           | segment :: segments => String c segment :: segments
           | [] => [String c ""]
           end
  end.

(** [segments.slice(-1)[0]] *)
Definition slice_last (segments : list string) : string :=
  List.last segments "".

(** [types.join(', ')] *)
Definition join (sep : string) (types : list string) : string :=
  String.concat sep types.

(** [types.includes(t)] *)
Definition includes (types : list string) (t : string) : bool :=
  existsb (String.eqb t) types.

(** ** The concurrent binding tasks *)

(** A promise returned by a call of [processUpload]: already rejected by
    the validation that runs at the call, or suspended at its first [await]. *)
Inductive Task : Type :=
  | TaskRejected (e : Thrown)
  | TaskRunning (file : FileStream) (variableName : string).

Fixpoint first_rejection (tasks : list Task) : option Thrown :=
  match tasks with
  | [] => None
  | TaskRejected e :: _ => Some e
  | TaskRunning _ _ :: rest => first_rejection rest
  end.

Fixpoint running (tasks : list Task) : list (FileStream * string) :=
  match tasks with
  | [] => []
  | TaskRejected _ :: rest => running rest
  | TaskRunning file variableName :: rest => (file, variableName) :: running rest
  end.

(** The order in which the suspended tasks are resumed is not fixed by the
    program: it is chosen by a schedule.  Task number [k] (counted from the
    last one dispatched) is placed at position [schedule_k mod (k + 1)] among
    the tasks dispatched after it; a missing number counts as 0. *)
Fixpoint completion_order {A} (schedule : list nat) (tasks : list A) : list A :=
  match tasks with
  | [] => []
  | t :: rest =>
      let order := completion_order (tail schedule) rest in
      let i := (hd 0 schedule `mod` S (length order))%nat in
      take i order ++ t :: drop i order
  end.

(** ** The functions of [index.ts] *)

Section Orchestrator.
(** [JSON.parse] on a text: [None] when it throws a [SyntaxError]. *)
Variable JSON_parse : string -> option JValue.
(** [fileTypeFromBuffer]: the canonical MIME type of the signature found
    in the buffer, [None] for [undefined]. *)
Variable fileTypeFromBuffer : list Byte.byte -> option string.
(** [isText(null, buffer)] *)
Variable isText : list Byte.byte -> bool.
(** The text of a number inside a template literal. *)
Variable Number_toString : Q -> string.
(** What a read of the name [k] finds on a [File] of the platform and on its
    prototypes [File.prototype] and [Blob.prototype], when the read is made on
    an object that inherits from the [File]: the accessors ([name], [size],
    [type], ...) are then called on that object, which is not a [File], and
    may throw. *)
Variable File_inherited : string -> Inherited.

(** [JSON.parse(input)] for what [formData.get] returned.  The argument is
    first converted to a string: [null] becomes the text [null], which
    parses to [null]; a [File] becomes [[object File]], which does not
    parse. *)
Definition JSON_parse_entry (input : option FormDataEntryValue) : M JValue :=
  match input with
  | None => ret JNull
  | Some (EntryFile _) => throw (ThrownError "Unexpected token")
  | Some (EntryText s) =>
      match JSON_parse s with
      | Some v => ret v
      | None => throw (ThrownError "Unexpected token")
      end
  end.

(** [typeof v === 'object'] *)
Definition typeof_object (v : JValue) : bool :=
  match v with
  | JNull | JObject _ _ => true
  | _ => false
  end.

Definition is_null (v : JValue) : bool :=
  match v with
  | JNull => true
  | _ => false
  end.

Definition sanitizeAndValidateJSON (input : option FormDataEntryValue)
  : M JValue :=
  try_catch
    (result <- JSON_parse_entry input ;;
     if negb (typeof_object result) || is_null result
     then throw (ThrownError "Invalid JSON structure")
     else ret result)
    (fun error => throw (ThrownError "Invalid JSON input")).

(** *** [processUpload] *)

(** [!file.name || !file.size || !file.type] *)
Definition invalidProperties (file : FormDataFile) : bool :=
  String.eqb (name file) "" || Z.eqb (size file) 0 || String.eqb (type file) "".

(** The MIME type [processUpload] settles on for a file and its buffer. *)
Definition effectiveMimeType (file : FormDataFile) (buffer : list Byte.byte)
  : string :=
  let fileType := fileTypeFromBuffer buffer in
  let mimeType := type file in
  match fileType with
  | Some mime => mime
  | None => if isText buffer then "text/plain" else mimeType
  end.

(** [operations.variables[variableName] = upload].
    - Assigning a property of [undefined] or [null], or (in a module, which
      is strict code) of a primitive value, throws a [TypeError].
    - On an array the key [length] is the length kept by the language: a
      handle is not a length, and the assignment throws a [RangeError].
    - The key [__proto__], unless the object owns it (as [JSON.parse] makes
      it do when the text has that key), is the accessor of
      [Object.prototype]: its setter makes the handle the prototype of the
      object and creates no own property.
    - Any other key is overwritten if the object owns it, and becomes a new
      own property otherwise. *)
Definition vars_set (vars : Variables) (k : string) (upload : Upload.t)
  : M Variables :=
  match vars with
  | VarsObject cls proto props =>
      match cls, String.eqb k "length" with
      | ClassArray, true => throw (RangeError "Invalid array length")
      | _, _ =>
          if String.eqb k "__proto__" && negb (owns props k)
          then ret (VarsObject cls (Some upload) props)
          else ret (VarsObject cls proto (prop_set props k (SlotUpload upload)))
      end
  | VarsOther _ => throw (TypeError ("Cannot set property " ++ k))
  end.

(** The part of [processUpload] that runs at the call, up to the first
    [await]: the validation, and the opening of the stream. *)
Definition processUpload_begin (file : FileStream) : M unit :=
  (if invalidProperties file
   then throw (ThrownError "Invalid file properties")
   else ret tt) ;;
  emit (EvStream file).

(** The part that runs once the stream has been read into [buffer]. *)
Definition processUpload_resume (file : FileStream) (variableName : string)
    (operations : Operations) (allowedTypes : list string) : M Operations :=
  let buffer := streamToBuffer (stream file) in
  let mimeType := effectiveMimeType file buffer in
  (if negb (includes allowedTypes mimeType)
   then throw (ThrownError ("File type " ++ mimeType
                 ++ " is not allowed. Allowed types: " ++ join ", " allowedTypes))
   else ret tt) ;;
  let upload :=
    Upload.resolve {| fileSize := size file;
                      fileName := name file;
                      mimeType := mimeType;
                      encoding := "binary";
                      createReadStream := fun _ => bufferToStream buffer |}
                   Upload.new in
  vars <- vars_set (variables operations) variableName upload ;;
  emit (EvAssign variableName upload) ;;
  ret {| query := query operations; variables := vars |}.

(** [processUpload(file, variableName, operations, allowedTypes)] run from
    its call to its end; the mutated [operations] is the result. *)
Definition processUpload (file : FileStream) (variableName : string)
    (operations : Operations) (allowedTypes : list string) : M Operations :=
  processUpload_begin file ;;
  processUpload_resume file variableName operations allowedTypes.

(** *** [uploadProcess] *)

(** The lookup of a name that [files] does not own on its prototype chain:
    on the [File] that was made the prototype, if there is one, and then on
    [Object.prototype]. *)
Definition Files_inherited (files : Files) (k : string) : Inherited :=
  match files_proto files with
  | Some _ =>
      match File_inherited k with
      | NotInherited => Object_prototype k
      | InheritedMember => InheritedMember
      | InheritedThrows e => InheritedThrows e
      end
  | None => Object_prototype k
  end.

(** [files[fileKey]].  An own property, and the prototype read through
    [__proto__], is a [File]; any other name is looked up on the prototype
    chain. *)
Definition Files_get (files : Files) (fileKey : string) : M Member :=
  match files !! fileKey with
  | Some file => ret (MemberFile file)
  | None =>
      match Files_inherited files fileKey with
      | NotInherited => ret MemberUndefined
      | InheritedMember => ret MemberOther
      | InheritedThrows e => throw e
      end
  end.

(** [file.size > settings.maxFileSize]: the read of [size] throws on
    [undefined]; a member that has no [size] is not greater than anything. *)
Definition exceeds (file : Member) (settings : Settings) : M bool :=
  match file with
  | MemberFile file => ret (maxFileSize settings <? size file)%Z
  | MemberOther => ret false
  | MemberUndefined =>
      throw (TypeError "Cannot read properties of undefined (reading 'size')")
  end.

(** The call [processUpload(...)] inside the loop: an [async] function
    returns a promise, rejected if its body has thrown before suspending.
    Called with a value that has no [size], the validation of the file
    properties throws. *)
Definition processUpload_call (file : Member) (variableName : string)
  : M Task :=
  match file with
  | MemberFile file =>
      match processUpload_begin file with
      | (Normal _, l) => (Normal (TaskRunning file variableName), l)
      | (Throw e, l) => (Normal (TaskRejected e), l)
      | (Return r, l) => (Return r, l)
      end
  | MemberOther => ret (TaskRejected (ThrownError "Invalid file properties"))
  | MemberUndefined =>
      ret (TaskRejected
             (TypeError "Cannot read properties of undefined (reading 'name')"))
  end.

(** [paths[0]] for [paths = map[fileKey]] *)
Definition first_path (paths : JValue) : M JValue :=
  match paths with
  | JUndefined =>
      throw (TypeError "Cannot read properties of undefined (reading '0')")
  | JNull => throw (TypeError "Cannot read properties of null (reading '0')")
  | JObject _ props => ret (default JUndefined (prop_get props "0"))
  | JStr (String c _) => ret (JStr (String c ""))
  | _ => ret JUndefined
  end.

(** [pathSegment.split('.')] *)
Definition split_path (pathSegment : JValue) : M (list string) :=
  match pathSegment with
  | JStr s => ret (String_split "."%char s)
  | JUndefined =>
      throw (TypeError "Cannot read properties of undefined (reading 'split')")
  | JNull =>
      throw (TypeError "Cannot read properties of null (reading 'split')")
  | _ => throw (TypeError "pathSegment.split is not a function")
  end.

Definition sizeError (settings : Settings) : NextResponse :=
  JsonError ("File size is too large. Maximum allowed size is "
             ++ Number_toString
                  (inject_Z (maxFileSize settings) / inject_Z (1024 * 1024))%Q
             ++ "MB.").

(** The loop [for (const fileKey of Object.keys(map))], with the promises
    pushed so far. *)
Fixpoint dispatchAll (files : Files) (map : JValue)
    (settings : Settings) (keys : list string) (uploadPromises : list Task)
  : M (list Task) :=
  match keys with
  | [] => ret uploadPromises
  | fileKey :: keys' =>
      file <- Files_get files fileKey ;;
      emit (EvLookup fileKey (Member_file file)) ;;
      tooLarge <- exceeds file settings ;;
      if tooLarge : bool
      then return_ (sizeError settings)
      else
        pathSegment <- first_path (member map fileKey) ;;
        segments <- split_path pathSegment ;;
        let variableName := slice_last segments in
        emit (EvDispatch fileKey (Member_file file) variableName) ;;
        promise <- processUpload_call file variableName ;;
        dispatchAll files map settings keys' (uploadPromises ++ [promise])
  end.

(** The suspended tasks resumed one after the other; the first that
    throws rejects the join. *)
Fixpoint resumeAll (order : list (FileStream * string))
    (operations : Operations) (allowedTypes : list string) : M Operations :=
  match order with
  | [] => ret operations
  | (file, variableName) :: order' =>
      operations' <- processUpload_resume file variableName operations allowedTypes ;;
      resumeAll order' operations' allowedTypes
  end.

(** [await Promise.all(uploadPromises)].  A promise rejected at its call
    is rejected before any suspended task can finish. *)
Definition Promise_all (schedule : list nat) (uploadPromises : list Task)
    (operations : Operations) (allowedTypes : list string) : M Operations :=
  match first_rejection uploadPromises with
  | Some e => throw e
  | None =>
      resumeAll (completion_order schedule (running uploadPromises))
                operations allowedTypes
  end.

(** One turn of [for (const key in variables)]. *)
Definition deleteIfUnset (props : list (string * Slot)) (key : string)
  : list (string * Slot) :=
  if negb (from_option slot_truthy false (prop_get props key))
  then prop_delete props key
  else props.

(** The loop that removes the variables that were not set.  [for ... in]
    enumerates nothing on [undefined], [null], numbers and booleans, and
    only (truthy) characters on a string.  On an object it enumerates the own
    properties and then the enumerable properties of a handle that was made
    the prototype (its fields [file], [promise], [reject] and [resolve]):
    these are truthy and are not own properties, so that the loop deletes
    nothing for them. *)
Definition removeUnset (vars : Variables) : Variables :=
  match vars with
  | VarsObject cls proto props =>
      VarsObject cls proto (foldl deleteIfUnset props props.*1)
  | VarsOther _ => vars
  end.

(** [const { data, errors } = singleResult] *)
Definition destructure (singleResult : JValue) : M (JValue * JValue) :=
  match singleResult with
  | JUndefined | JNull =>
      throw (TypeError "Cannot destructure property 'data'")
  | _ => ret (member singleResult "data", member singleResult "errors")
  end.

(** [for await (const result of subsequentResults) results.push(result)] *)
Definition drain (subsequentResults : AsyncIterable) (results : list JValue)
  : M (list JValue) :=
  let results := foldl (fun rs result => rs ++ [result]) results
                       (emitted subsequentResults) in
  match failure subsequentResults with
  | Some e => throw e
  | None => ret results
  end.

Definition await_execution (e : Execution) : M (option ResponseBody) :=
  match e with
  | ExecutionRejects e => throw e
  | ExecutionResponse body => ret body
  end.

(** The two branches on [response.body.kind]; a third kind leaves the
    [if] without a [return]. *)
Definition respond (response : option ResponseBody) : M unit :=
  match response with
  | None =>
      throw (TypeError "Cannot read properties of undefined (reading 'kind')")
  | Some body =>
      if String.eqb (kind body) "single" then
        fields <- destructure (singleResult body) ;;
        return_ (JsonData fields.1 fields.2)
      else if String.eqb (kind body) "incremental" then
        let results := [initialResult body] in
        results <- drain (subsequentResults body) results ;;
        return_ (JsonResults results)
      else ret tt
  end.

(** [error instanceof Error ? error.message : 'Unknown error'] *)
Definition errorMessage (error : Thrown) : string :=
  match error with
  | ThrownError message => message
  | ThrownValue _ => "Unknown error"
  end.

(** The body of the [try] block. *)
Definition uploadProcess_try (request : NextRequest) (context : Thrown + JValue)
    (server : Server) (settings : Settings) (schedule : list nat) : M unit :=
  formData <- await (formData request) ;;
  let files := extractFiles formData in
  map <- sanitizeAndValidateJSON (FormData_get formData "map") ;;
  parsed <- sanitizeAndValidateJSON (FormData_get formData "operations") ;;
  let operations := toOperations parsed in
  uploadPromises <- dispatchAll files map settings (Object_keys map) [] ;;
  operations <- Promise_all schedule uploadPromises operations
                            (allowedTypes settings) ;;
  let variables := removeUnset (variables operations) in
  let request := {| req_query := query operations;
                    req_variables := variables |} in
  contextValue <- await context ;;
  emit (EvExecute request contextValue) ;;
  response <- await_execution (executeOperation server request contextValue) ;;
  respond response.

(** The result of a call: the response returned ([None] when the function
    ends without returning one) and the events of the run. *)
Record Run : Type := {
  response : option NextResponse;
  events : list Event
}.

(** [uploadProcess(request, context, server, settings)]; [schedule] fixes
    the order in which the concurrent binding tasks complete. *)
Definition uploadProcess (request : NextRequest) (context : Thrown + JValue)
    (server : Server) (settings : Settings) (schedule : list nat) : Run :=
  match
    try_catch (uploadProcess_try request context server settings schedule)
      (fun error =>
         return_ (JsonError ("Error processing upload: " ++ errorMessage error)))
  with
  | (Return r, l) => {| response := Some r; events := l |}
  | (_, l) => {| response := None; events := l |}
  end.
End Orchestrator.

(** ** The events of a run, by kind *)

(** The variables assigned, in the order of the assignments. *)
Fixpoint assignments (l : list Event) : list (string * Upload.t) :=
  match l with
  | [] => []
  | EvAssign variableName upload :: l' => (variableName, upload) :: assignments l'
  | _ :: l' => assignments l'
  end.

(** The field names for which a binding task was dispatched, in order. *)
Fixpoint dispatched (l : list Event) : list string :=
  match l with
  | [] => []
  | EvDispatch fileKey _ _ :: l' => fileKey :: dispatched l'
  | _ :: l' => dispatched l'
  end.

(** The variable names the binding tasks were dispatched with, in order. *)
Fixpoint dispatched_variables (l : list Event) : list string :=
  match l with
  | [] => []
  | EvDispatch _ _ variableName :: l' => variableName :: dispatched_variables l'
  | _ :: l' => dispatched_variables l'
  end.

(** The calls made to the execution engine. *)
Fixpoint executions (l : list Event) : list (OperationRequest * JValue) :=
  match l with
  | [] => []
  | EvExecute request contextValue :: l' => (request, contextValue) :: executions l'
  | _ :: l' => executions l'
  end.

(** The descriptor [processUpload] resolves the handle of a file to, given
    the MIME type it settled on, and that handle. *)
Definition descriptor (file : FileStream) (mime : string) : File :=
  {| createReadStream := fun _ => bufferToStream (streamToBuffer (stream file));
     encoding := "binary";
     fileName := name file;
     fileSize := size file;
     mimeType := mime |}.

Definition handle (file : FileStream) (mime : string) : Upload.t :=
  Upload.resolve (descriptor file mime) Upload.new.

(** [operations.variables[variableName] = upload] replayed on the variables:
    what the assignments of a log make of them. *)
Definition assign (vars : Variables) (a : string * Upload.t) : Variables :=
  match completion (vars_set vars a.1 a.2) with
  | Normal vars' => vars'
  | _ => vars
  end.

(** An assignment makes a handle the prototype of the variables only if they
    do not own the key [__proto__]: variables that own it have the prototype
    they were created with. *)
Definition own_proto_unassigned (vars : Variables) : Prop :=
  owns (vars_own vars) "__proto__" = true -> vars_proto vars = None.

(** The descriptor left in the [file] field by later calls on a handle first
    resolved with [f]. *)
Definition last_resolved (f : File) (calls : list Upload.call) : File :=
  foldl (fun d c => match c with
                    | Upload.Resolve g => g
                    | Upload.Reject _ => d
                    end) f calls.

(** A field of the form data that is a text parsing to an object. *)
Definition field_parses (JSON_parse : string -> option JValue)
    (fd : FormData) (field : string) (props : list (string * JValue)) : Prop :=
  exists text cls, FormData_get fd field = Some (EntryText text)
                   /\ JSON_parse text = Some (JObject cls props).

(** What the [catch] block answers to a thrown [error]. *)
Definition failureResponse (error : Thrown) : NextResponse :=
  JsonError ("Error processing upload: " ++ errorMessage error).

(** The run that ends in the [catch] block after the events [l]. *)
Definition failed (error : Thrown) (l : list Event) : Run :=
  {| response := Some (failureResponse error); events := l |}.

(** The own enumerable properties of a parsed object. *)
Definition own_props (v : JValue) : list (string * JValue) :=
  match v with
  | JObject _ props => props
  | _ => []
  end.

(** The own properties of the object that [sanitizeAndValidateJSON] returns
    for a field of the form data; [None] when it throws. *)
Definition envelope (JSON_parse : string -> option JValue)
    (fd : FormData) (field : string) : option (list (string * JValue)) :=
  match completion (sanitizeAndValidateJSON JSON_parse (FormData_get fd field)) with
  | Normal v => Some (own_props v)
  | _ => None
  end.

(** The end of [uploadProcess], from the cleaning of the variables on, after
    the events [l]: the context is awaited, the engine is called, and its
    result is turned into the response. *)
Definition executeStage (server : Server) (context : Thrown + JValue)
    (operations : Operations) (l : list Event) : Run :=
  match context with
  | inl e => failed e l
  | inr contextValue =>
      let request := {| req_query := query operations;
                        req_variables := removeUnset (variables operations) |} in
      let l' := l ++ [EvExecute request contextValue] in
      match executeOperation server request contextValue with
      | ExecutionRejects e => failed e l'
      | ExecutionResponse body =>
          match completion (respond body) with
          | Return r => {| response := Some r; events := l' |}
          | Throw e => failed e l'
          | Normal _ => {| response := None; events := l' |}
          end
      end
  end.

(** The variable name the loop of [uploadProcess] derives for a field:
    [map[fileKey][0].split('.').slice(-1)[0]]. *)
Definition variableNameOf (map : JValue) (fileKey : string) : M string :=
  (pathSegment <- first_path (member map fileKey) ;;
   segments <- split_path pathSegment ;;
   ret (slice_last segments))%js.

(** The promise [processUpload] returns at its call, and the events of the
    call. *)
Definition taskOf (file : FileStream) (variableName : string) : Task * list Event :=
  if invalidProperties file
  then (TaskRejected (ThrownError "Invalid file properties"), [])
  else (TaskRunning file variableName, [EvStream file]).

(** The same for whatever [files[fileKey]] has read. *)
Definition taskOfMember (file : Member) (variableName : string)
  : Task * list Event :=
  match file with
  | MemberFile file => taskOf file variableName
  | MemberOther => (TaskRejected (ThrownError "Invalid file properties"), [])
  | MemberUndefined =>
      (TaskRejected
         (TypeError "Cannot read properties of undefined (reading 'name')"), [])
  end.

(** [file.size > settings.maxFileSize] for what was read. *)
Definition oversized (file : Member) (settings : Settings) : bool :=
  match file with
  | MemberFile file => (maxFileSize settings <? size file)%Z
  | _ => false
  end.

(** The declared size of what was read is not greater than the limit. *)
Definition within (file : Member) (settings : Settings) : Prop :=
  forall f : FileStream, file = MemberFile f -> (size f <= maxFileSize settings)%Z.

(** The assignment a resumed task makes: its variable name and the handle
    of its file. *)
Definition bound (fileTypeFromBuffer : list Byte.byte -> option string)
    (isText : list Byte.byte -> bool) (task : FileStream * string)
  : string * Upload.t :=
  (task.2,
   handle task.1 (effectiveMimeType fileTypeFromBuffer isText task.1
            (streamToBuffer (stream task.1)))).





(** ** A worked request

    Concrete library functions and requests, used to run the model. *)
Module Demo.
Definition quoted (s : string) : string :=
  String (ascii_of_nat 34) s ++ String (ascii_of_nat 34) "".

(** The text [{"0":["variables.file"]}] *)
Definition map_text : string :=
  "{" ++ quoted "0" ++ ":[" ++ quoted "variables.file" ++ "]}".

(** The text [{"query":"mutation ...","variables":{"file":null}}] *)
Definition query_text : string :=
  "mutation ($file: Upload!) { uploadFile(file: $file) { fileName } }".

Definition operations_text : string :=
  "{" ++ quoted "query" ++ ":" ++ quoted query_text ++ ","
      ++ quoted "variables" ++ ":{" ++ quoted "file" ++ ":null}}".

(** The text [{"0":["variables.file"],"1":["variables.file"]}] *)
Definition colliding_map_text : string :=
  "{" ++ quoted "0" ++ ":[" ++ quoted "variables.file" ++ "],"
      ++ quoted "1" ++ ":[" ++ quoted "variables.file" ++ "]}".

(** [JSON.parse] on the texts used below. *)
Definition JSON_parse (text : string) : option JValue :=
  if String.eqb text map_text then
    Some (JObj [("0", JArr [JStr "variables.file"])])
  else if String.eqb text colliding_map_text then
    Some (JObj [("0", JArr [JStr "variables.file"]);
                ("1", JArr [JStr "variables.file"])])
  else if String.eqb text "{}" then Some (JObj [])
  else if String.eqb text operations_text then
    Some (JObj [("query", JStr query_text);
                ("variables", JObj [("file", JNull)])])
  else None.

Definition png_signature : list Byte.byte :=
  [Byte.x89; Byte.x50; Byte.x4e; Byte.x47; Byte.x0d; Byte.x0a; Byte.x1a; Byte.x0a].

(** A sniffer that knows the PNG signature only. *)
Definition fileTypeFromBuffer (buffer : list Byte.byte) : option string :=
  if bool_decide (Byte.to_nat <$> take 8 buffer = Byte.to_nat <$> png_signature)
  then Some "image/png" else None.

(** Text: every byte is a 7-bit character. *)
Definition isText (buffer : list Byte.byte) : bool :=
  forallb (fun b => (Byte.to_nat b <? 128)%nat) buffer.

(** A platform whose accessors [name], [lastModified], [size] and [type]
    check that they are called on a [File], and throw otherwise. *)
Definition File_inherited (k : string) : Inherited :=
  if bool_decide (k ∈ ["name"; "lastModified"; "size"; "type"])
  then InheritedThrows (TypeError "Illegal invocation")
  else if bool_decide (k ∈ ["arrayBuffer"; "slice"; "stream"; "text"])
  then InheritedMember
  else NotInherited.

(** The decimal expansion of a rational, to at most 40 places: exact for
    the quotients by [1024 * 1024] used below. *)
Fixpoint fraction_digits (places : nat) (num den : Z) : string :=
  match places with
  | O => ""
  | S places' =>
      if (num =? 0)%Z then ""
      else String (ascii_of_nat (48 + Z.to_nat (num * 10 / den)))
                  (fraction_digits places' ((num * 10) `mod` den)%Z den)
  end.

Definition Number_toString (q : Q) : string :=
  let r := Qred q in
  let n := Z.abs (Qnum r) in
  let d := Zpos (Qden r) in
  let fraction := fraction_digits 40 (n `mod` d)%Z d in
  ((if (Qnum r <? 0)%Z then "-" else "") ++ pretty (n / d)%Z
   ++ (if String.eqb fraction "" then "" else "." ++ fraction))%string.

Definition a_txt : FileStream :=
  {| formDataFile := {| lastModified := 0; name := "a.txt"; size := 14;
                        type := "application/octet-stream" |};
     stream := [String.list_byte_of_string "Hello, "; String.list_byte_of_string "upload."] |}.

Definition empty_txt : FileStream :=
  {| formDataFile := {| lastModified := 0; name := "empty.txt"; size := 0;
                        type := "text/plain" |};
     stream := [] |}.

Definition logo_png : FileStream :=
  {| formDataFile := {| lastModified := 0; name := "logo.png"; size := 12;
                        type := "application/octet-stream" |};
     stream := [png_signature ++ [Byte.x00; Byte.x00; Byte.x00; Byte.x0d]] |}.

Definition request_with (file : FileStream) : NextRequest :=
  {| formData := inr [("operations", EntryText operations_text);
                      ("map", EntryText map_text);
                      ("0", EntryFile file)] |}.

(** A request that maps two parts to the same variable. *)
Definition request_colliding : NextRequest :=
  {| formData := inr [("operations", EntryText operations_text);
                      ("map", EntryText colliding_map_text);
                      ("0", EntryFile a_txt);
                      ("1", EntryFile logo_png)] |}.

(** A request whose map names a part that was not uploaded. *)
Definition request_without_file : NextRequest :=
  {| formData := inr [("operations", EntryText operations_text);
                      ("map", EntryText map_text)] |}.

(** A request that maps no file at all. *)
Definition request_no_upload : NextRequest :=
  {| formData := inr [("operations", EntryText operations_text);
                      ("map", EntryText "{}")] |}.

(** A request whose [operations] field is the text [{not json]. *)
Definition request_bad_operations : NextRequest :=
  {| formData := inr [("operations", EntryText "{not json");
                      ("map", EntryText map_text);
                      ("0", EntryFile a_txt)] |}.

Definition body_of_kind (k : string) : ResponseBody :=
  {| kind := k;
     singleResult := JObj [("data", JObj [("uploadFile", JStr "a.txt")])];
     initialResult := JObj [("data", JNull); ("hasNext", JBool true)];
     subsequentResults :=
       {| emitted := [JObj [("hasNext", JBool false)]]; failure := None |} |}.

(** An engine that answers every operation with a body of kind [k]. *)
Definition server_of_kind (k : string) : Server :=
  {| executeOperation := fun _ _ => ExecutionResponse (Some (body_of_kind k)) |}.

Definition settings : Settings :=
  {| allowedTypes := ["image/jpeg"; "image/png"; "text/plain"];
     maxFileSize := 10 * 1024 * 1024 |}.

Definition small_settings : Settings :=
  {| allowedTypes := ["text/plain"]; maxFileSize := 10 |}.

Definition contextValue : JValue := JObj [("ip", JStr "127.0.0.1")].

Definition context : Thrown + JValue := inr contextValue.

(** The operation the engine receives once [a.txt] is bound. *)
Definition bound_request : OperationRequest :=
  {| req_query := JStr query_text;
     req_variables :=
       VarsObject ClassObject None
         [("file", SlotUpload (handle a_txt "text/plain"))] |}.

(** The operation it receives when no file is mapped: the [null] variable
    is gone. *)
Definition bare_request : OperationRequest :=
  {| req_query := JStr query_text;
     req_variables := VarsObject ClassObject None [] |}.

Definition run (request : NextRequest) (server : Server) (settings : Settings)
  : Run :=
  uploadProcess JSON_parse fileTypeFromBuffer isText Number_toString
    File_inherited request context server settings [].
End Demo.

(** ** The [Upload] scalar *)

Module GraphQLUpload.
(** What [parseValue] returns: the promise of an [Upload], or a
    [GraphQLError] object, which is returned and not thrown. *)
Inductive parsed : Type :=
  | Promise (p : PromiseState File)
  | Error (message : string).

Definition description : string :=
  "The Upload scalar type represents a file upload.".

Definition name : string := "Upload".

(** [parseLiteral(node) { throw new GraphQLError(...) }] *)
Definition parseLiteral (node : JValue) : M parsed :=
  throw (ThrownError "Upload literal unsupported.").

(** [parseValue(value)]: [value instanceof Upload ? value.promise
    : new GraphQLError('Upload value invalid.')] *)
Definition parseValue (value : Slot) : M parsed :=
  ret (match value with
       | SlotUpload upload => Promise (Upload.promise upload)
       | SlotValue _ => Error "Upload value invalid."
       end).

(** [serialize() { throw new GraphQLError(...) }] *)
Definition serialize : M JValue :=
  throw (ThrownError "Upload serialization unsupported.").
End GraphQLUpload.

(** ** More requests to run *)
Module Cases.
(** The text [{"query":"mutation ..."}]: operations without variables. *)
Definition bare_operations_text : string :=
  "{" ++ Demo.quoted "query" ++ ":" ++ Demo.quoted Demo.query_text ++ "}".

(** The text [{"0":[]}]: a map entry without a path. *)
Definition empty_paths_map_text : string :=
  "{" ++ Demo.quoted "0" ++ ":[]}".

(** The text [{"0":"variables.file"}]: a map entry that is a string. *)
Definition string_map_text : string :=
  "{" ++ Demo.quoted "0" ++ ":" ++ Demo.quoted "variables.file" ++ "}".

(** The text [{"0":["variables.__proto__"]}]: a path to the accessor of
    [Object.prototype]. *)
Definition proto_map_text : string :=
  "{" ++ Demo.quoted "0" ++ ":[" ++ Demo.quoted "variables.__proto__" ++ "]}".

(** The text [{"constructor":["variables.file"]}]: a field named like a
    member of [Object.prototype]. *)
Definition constructor_map_text : string :=
  "{" ++ Demo.quoted "constructor" ++ ":[" ++ Demo.quoted "variables.file" ++ "]}".

(** The text [{"0":["variables.length"]}] *)
Definition length_map_text : string :=
  "{" ++ Demo.quoted "0" ++ ":[" ++ Demo.quoted "variables.length" ++ "]}".

(** The text [{"query":"mutation ...","variables":[]}]: variables that are
    an array. *)
Definition array_operations_text : string :=
  "{" ++ Demo.quoted "query" ++ ":" ++ Demo.quoted Demo.query_text ++ ","
      ++ Demo.quoted "variables" ++ ":[]}".

Definition JSON_parse (text : string) : option JValue :=
  if String.eqb text bare_operations_text then
    Some (JObj [("query", JStr Demo.query_text)])
  else if String.eqb text empty_paths_map_text then
    Some (JObj [("0", JArr [])])
  else if String.eqb text string_map_text then
    Some (JObj [("0", JStr "variables.file")])
  else if String.eqb text proto_map_text then
    Some (JObj [("0", JArr [JStr "variables.__proto__"])])
  else if String.eqb text constructor_map_text then
    Some (JObj [("constructor", JArr [JStr "variables.file"])])
  else if String.eqb text length_map_text then
    Some (JObj [("0", JArr [JStr "variables.length"])])
  else if String.eqb text array_operations_text then
    Some (JObj [("query", JStr Demo.query_text); ("variables", JArr [])])
  else Demo.JSON_parse text.

(** A part declared [application/pdf] whose bytes are neither a known
    signature nor text. *)
Definition report_pdf : FileStream :=
  {| formDataFile := {| lastModified := 0; name := "report.pdf"; size := 6;
                        type := "application/pdf" |};
     stream := [[Byte.x25; Byte.x50; Byte.x44; Byte.x46]; [Byte.xe2; Byte.xe3]] |}.

Definition form_of (operations_text map_text : string) (file : FileStream)
  : FormData :=
  [("operations", EntryText operations_text);
   ("map", EntryText map_text);
   ("0", EntryFile file)].

Definition request_of (operations_text map_text : string) (file : FileStream)
  : NextRequest :=
  {| formData := inr (form_of operations_text map_text file) |}.

(** A text field and two files under one name, and one more file. *)
Definition mixed_form : FormData :=
  [("0", EntryFile Demo.a_txt);
   ("0", EntryText "not a file");
   ("0", EntryFile Demo.logo_png);
   ("1", EntryFile Demo.empty_txt);
   ("note", EntryText "hello")].

(** An engine that rejects every operation. *)
Definition server_rejecting : Server :=
  {| executeOperation := fun _ _ => ExecutionRejects (ThrownError "engine down") |}.

(** An engine whose incremental sequence throws after one result. *)
Definition server_broken_stream : Server :=
  {| executeOperation := fun _ _ =>
       ExecutionResponse
         (Some {| kind := "incremental";
                  singleResult := JUndefined;
                  initialResult := JObj [("hasNext", JBool true)];
                  subsequentResults :=
                    {| emitted := [JObj [("hasNext", JBool true)]];
                       failure := Some (ThrownError "stream broken") |} |}) |}.

Definition run (request : NextRequest) (context : Thrown + JValue)
    (server : Server) (settings : Settings) : Run :=
  uploadProcess JSON_parse Demo.fileTypeFromBuffer Demo.isText
    Demo.Number_toString Demo.File_inherited request context server settings [].
End Cases.

(** * Properties *)

(** ** Own properties *)

Section PropertyLemmas.
Context {A : Type}.
Implicit Types (props : list (string * A)) (k : string) (v : A).

Lemma prop_get_set_eq props k v : prop_get (prop_set props k v) k = Some v.
Proof.
  induction props as [|[k' v'] props IH]; simpl.
  - by rewrite String.eqb_refl.
  - destruct (String.eqb k' k) eqn:E; simpl; by rewrite E.
Qed.

Lemma prop_get_set_ne props k k' v :
  k <> k' -> prop_get (prop_set props k v) k' = prop_get props k'.
Proof.
  intros Hne. induction props as [|[k0 v0] props IH]; simpl.
  - destruct (String.eqb k k') eqn:E; [|done].
    by apply String.eqb_eq in E.
  - destruct (String.eqb k0 k) eqn:E; simpl.
    + apply String.eqb_eq in E as ->.
      destruct (String.eqb k k') eqn:E'; [|done].
      by apply String.eqb_eq in E'.
    + by rewrite IH.
Qed.

Lemma prop_get_delete_eq props k : prop_get (prop_delete props k) k = None.
Proof.
  induction props as [|[k' v'] props IH]; simpl; [done|].
  destruct (String.eqb k' k) eqn:E; simpl; [done|]. by rewrite E.
Qed.

Lemma prop_get_delete_ne props k k' :
  k <> k' -> prop_get (prop_delete props k) k' = prop_get props k'.
Proof.
  intros Hne. induction props as [|[k0 v0] props IH]; simpl; [done|].
  destruct (String.eqb k0 k) eqn:E; simpl.
  - apply String.eqb_eq in E as ->.
    destruct (String.eqb k k') eqn:E'; [|done].
    by apply String.eqb_eq in E'.
  - by rewrite IH.
Qed.

Lemma prop_get_Some_key props k v : prop_get props k = Some v -> k ∈ props.*1.
Proof.
  induction props as [|[k' v'] props IH]; simpl; [done|].
  destruct (String.eqb k' k) eqn:E.
  - apply String.eqb_eq in E as ->. intros _. apply list_elem_of_here.
  - intros H. apply list_elem_of_further. auto.
Qed.

Lemma owns_true props k : owns props k = true <-> is_Some (prop_get props k).
Proof.
  unfold owns. destruct (prop_get props k) as [v|].
  - split; [by eexists|done].
  - split; [done|by intros [v [=]]].
Qed.

Lemma owns_false props k : owns props k = false <-> prop_get props k = None.
Proof. unfold owns. by destruct (prop_get props k). Qed.

Lemma owns_set_ne props k k' v : k <> k' -> owns (prop_set props k v) k' = owns props k'.
Proof. intros Hne. unfold owns. by rewrite prop_get_set_ne. Qed.
End PropertyLemmas.

(** ** The assignment of a variable *)

(** The assignment completes or throws, and emits no event. *)
Lemma vars_set_cases vars k u :
  (exists vars', vars_set vars k u = (Normal vars', []))
  \/ (exists e, vars_set vars k u = (Throw e, [])).
Proof.
  destruct vars as [cls proto props|v]; simpl; [|by eauto].
  destruct cls, (String.eqb k "length");
    destruct (String.eqb k "__proto__" && negb (owns props k)); by eauto.
Qed.

Lemma assign_eq vars k u vars' l :
  vars_set vars k u = (Normal vars', l) -> assign vars (k, u) = vars'.
Proof. unfold assign, completion. simpl. by intros ->. Qed.

(** An object, and no other value, may be assigned a variable; an ordinary
    object always may. *)
Lemma vars_set_Normal_inv vars k u vars' l :
  vars_set vars k u = (Normal vars', l) ->
  exists cls proto props proto' props',
    vars = VarsObject cls proto props /\ vars' = VarsObject cls proto' props'.
Proof.
  destruct vars as [cls proto props|v]; simpl; [|done].
  destruct cls, (String.eqb k "length");
    destruct (String.eqb k "__proto__" && negb (owns props k));
    intros [= <- <-]; by eexists _, _, _, _, _.
Qed.


(** What an assignment changes: the own property of that name or, for
    [__proto__] on an object that does not own it, the prototype. *)
Lemma vars_set_frame vars k u vars' l :
  vars_set vars k u = (Normal vars', l) ->
  exists cls proto props proto' props',
    vars = VarsObject cls proto props
    /\ vars' = VarsObject cls proto' props'
    /\ (forall k', k' <> k -> prop_get props' k' = prop_get props k')
    /\ (k <> "__proto__" \/ is_Some (prop_get props "__proto__") ->
        proto' = proto /\ prop_get props' k = Some (SlotUpload u))
    /\ (k = "__proto__" -> prop_get props "__proto__" = None ->
        proto' = Some u /\ props' = props).
Proof.
  destruct vars as [cls proto props|v]; simpl; [|done].
  assert (Hcase : (if String.eqb k "__proto__" && negb (owns props k)
                   then ret (VarsObject cls (Some u) props)
                   else ret (VarsObject cls proto (prop_set props k (SlotUpload u))))
                  = (Normal vars', l) ->
            exists proto' props',
              vars' = VarsObject cls proto' props'
              /\ (forall k', k' <> k -> prop_get props' k' = prop_get props k')
              /\ (k <> "__proto__" \/ is_Some (prop_get props "__proto__") ->
                  proto' = proto /\ prop_get props' k = Some (SlotUpload u))
              /\ (k = "__proto__" -> prop_get props "__proto__" = None ->
                  proto' = Some u /\ props' = props)).
  { destruct (String.eqb k "__proto__") eqn:Ek; simpl.
    - apply String.eqb_eq in Ek as ->.
      destruct (owns props "__proto__") eqn:Eo; simpl; intros [= <- <-].
      + apply owns_true in Eo. eexists _, _. split_and!; [done| | |].
        * intros k' Hne. by apply prop_get_set_ne.
        * intros _. split; [done|]. apply prop_get_set_eq.
        * intros _ Hnone. rewrite Hnone in Eo. by destruct Eo.
      + apply owns_false in Eo. eexists _, _. split_and!; [done..| |done].
        intros [?|[s Hs]]; [done|congruence].
    - apply String.eqb_neq in Ek. intros [= <- <-].
      eexists _, _. split_and!; [done| | |done].
      + intros k' Hne. by apply prop_get_set_ne.
      + intros _. split; [done|]. apply prop_get_set_eq. }
  intros H.
  assert (Hex : exists proto' props',
              vars' = VarsObject cls proto' props'
              /\ (forall k', k' <> k -> prop_get props' k' = prop_get props k')
              /\ (k <> "__proto__" \/ is_Some (prop_get props "__proto__") ->
                  proto' = proto /\ prop_get props' k = Some (SlotUpload u))
              /\ (k = "__proto__" -> prop_get props "__proto__" = None ->
                  proto' = Some u /\ props' = props)).
  { destruct cls, (String.eqb k "length"); by auto. }
  destruct Hex as (proto' & props' & Hex). by exists cls, proto, props, proto', props'.
Qed.

(** The variable that was assigned reads as the handle. *)
Lemma vars_get_set_eq vars k u vars' l :
  vars_set vars k u = (Normal vars', l) -> vars_get vars' k = Some (SlotUpload u).
Proof.
  destruct vars as [cls proto props|v]; simpl; [|done].
  assert (Hcase : (if String.eqb k "__proto__" && negb (owns props k)
                   then ret (VarsObject cls (Some u) props)
                   else ret (VarsObject cls proto (prop_set props k (SlotUpload u))))
                  = (Normal vars', l)
                  -> vars_get vars' k = Some (SlotUpload u)).
  { destruct (String.eqb k "__proto__") eqn:Ek; simpl.
    - destruct (owns props k) eqn:Eo; simpl; intros [= <- <-]; simpl.
      + by rewrite prop_get_set_eq.
      + apply owns_false in Eo. by rewrite Eo, Ek.
    - intros [= <- <-]. simpl. by rewrite prop_get_set_eq. }
  destruct cls, (String.eqb k "length"); done.
Qed.

(** The other variables read as before. *)
Lemma vars_get_set_ne vars k u vars' l k' :
  vars_set vars k u = (Normal vars', l) -> k <> k' ->
  vars_get vars' k' = vars_get vars k'.
Proof.
  intros H Hne. destruct vars as [cls proto props|v]; simpl in *; [|done].
  assert (Hcase : (if String.eqb k "__proto__" && negb (owns props k)
                   then ret (VarsObject cls (Some u) props)
                   else ret (VarsObject cls proto (prop_set props k (SlotUpload u))))
                  = (Normal vars', l)
                  -> vars_get vars' k'
                     = match prop_get props k' with
                       | Some s => Some s
                       | None => if String.eqb k' "__proto__"
                                 then SlotUpload <$> proto else None
                       end).
  { destruct (String.eqb k "__proto__") eqn:Ek; simpl.
    - apply String.eqb_eq in Ek as ->.
      destruct (owns props "__proto__"); simpl; intros [= <- <-]; simpl.
      + by rewrite prop_get_set_ne.
      + destruct (String.eqb k' "__proto__") eqn:Ek'; [|done].
        apply String.eqb_eq in Ek'. congruence.
    - intros [= <- <-]. simpl. by rewrite prop_get_set_ne. }
  destruct cls, (String.eqb k "length"); by auto.
Qed.

(** ** The [Upload] handle *)

Lemma Upload_run_settled (f : File) (calls : list Upload.call) (u : Upload.t) :
  Upload.promise u = Fulfilled f ->
  Upload.promise (Upload.run calls u) = Fulfilled f.
Proof.
  revert u. induction calls as [|c calls IH]; intros u Hu; [done|].
  apply IH. destruct c; simpl; by rewrite Hu.
Qed.

Lemma Upload_run_file (d : File) (calls : list Upload.call) (u : Upload.t) :
  Upload.file u = Some d ->
  Upload.file (Upload.run calls u) = Some (last_resolved d calls).
Proof.
  revert d u. induction calls as [|c calls IH]; intros d u Hu; [done|].
  destruct c as [g|reason]; simpl; by apply IH.
Qed.

Lemma last_resolved_rejects (f : File) (calls : list Upload.call) :
  Forall (fun c => exists reason, c = Upload.Reject reason) calls ->
  last_resolved f calls = f.
Proof.
  induction 1 as [|c calls [reason ->] _ IH]; [done|]. exact IH.
Qed.

(** C9, as the code has it: once a pending handle has been resolved with a
    descriptor, no later call of [resolve] or [reject] changes the descriptor
    its promise is fulfilled with (first resolution wins).  The [file] field
    holds the argument of the latest [resolve]: later calls of [reject] leave
    it alone, a later [resolve] replaces it. *)
Theorem Upload_first_resolution_wins
    (f : File) (u : Upload.t) (calls : list Upload.call) :
  Upload.promise u = Pending ->
  Upload.promise (Upload.run calls (Upload.resolve f u)) = Fulfilled f
  /\ Upload.file (Upload.run calls (Upload.resolve f u))
     = Some (last_resolved f calls)
  /\ (Forall (fun c => exists reason, c = Upload.Reject reason) calls ->
      Upload.file (Upload.run calls (Upload.resolve f u)) = Some f).
Proof.
  intros Hpending.
  assert (Hfile : Upload.file (Upload.run calls (Upload.resolve f u))
                  = Some (last_resolved f calls)) by by apply Upload_run_file.
  split_and!.
  - apply Upload_run_settled. simpl. by rewrite Hpending.
  - exact Hfile.
  - intros Hrej. by rewrite Hfile, last_resolved_rejects.
Qed.

Lemma Upload_first_resolution_wins_witness :
  let f := descriptor Demo.a_txt "text/plain" in
  let g := descriptor Demo.logo_png "image/png" in
  let calls := [Upload.Reject (ThrownError "late"); Upload.Resolve g] in
  Upload.promise Upload.new = Pending
  /\ Upload.promise (Upload.run calls (Upload.resolve f Upload.new)) = Fulfilled f
  /\ Upload.file (Upload.run calls (Upload.resolve f Upload.new)) = Some g.
Proof.
  split; [reflexivity|].
  pose proof (Upload_first_resolution_wins
                (descriptor Demo.a_txt "text/plain") Upload.new
                [Upload.Reject (ThrownError "late");
                 Upload.Resolve (descriptor Demo.logo_png "image/png")]
                eq_refl) as (Hp & Hf & _).
  split; [exact Hp | exact Hf].
Defined.

(** C9 as stated fails on the [file] field: a second [resolve] with another
    descriptor replaces the descriptor read through [file], while the
    promise keeps the first one. *)
Lemma Upload_second_resolve_overwrites_file :
  let f := descriptor Demo.a_txt "text/plain" in
  let g := descriptor Demo.logo_png "image/png" in
  let u := Upload.resolve f Upload.new in
  Upload.file u = Some f
  /\ g <> f
  /\ Upload.file (Upload.resolve g u) = Some g
  /\ Upload.file (Upload.resolve g u) <> Upload.file u
  /\ Upload.promise (Upload.resolve g u) = Fulfilled f.
Proof. by split_and!. Qed.

(** ** Streams and buffers *)

Lemma streamToBuffer_concat (stream : ReadableStream) :
  streamToBuffer stream = concat stream.
Proof.
  unfold streamToBuffer.
  assert (forall chunks acc,
             foldl (fun cs c => cs ++ [c]) acc chunks = acc ++ chunks) as ->; [|done].
  induction chunks as [|c chunks IH]; intros acc; simpl; [by rewrite app_nil_r|].
  by rewrite IH, <- app_assoc.
Qed.

(** Every stream made by [createReadStream] delivers the buffered bytes
    again. *)
Lemma streamToBuffer_bufferToStream (buffer : list Byte.byte) :
  streamToBuffer (bufferToStream buffer) = buffer.
Proof. rewrite streamToBuffer_concat. simpl. apply app_nil_r. Qed.

(** ** Splitting a path *)






(** ** [processUpload] *)

Section ProcessUpload.
Variable JSON_parse : string -> option JValue.
Variable fileTypeFromBuffer : list Byte.byte -> option string.
Variable isText : list Byte.byte -> bool.
Variable Number_toString : Q -> string.

Local Abbreviation effectiveMimeType := (effectiveMimeType fileTypeFromBuffer isText).
Local Abbreviation processUpload_resume := (processUpload_resume fileTypeFromBuffer isText).
Local Abbreviation processUpload := (processUpload fileTypeFromBuffer isText).

Lemma invalidProperties_spec (file : FormDataFile) :
  invalidProperties file = true
  <-> name file = "" \/ size file = 0%Z \/ type file = "".
Proof.
  unfold invalidProperties.
  rewrite !orb_true_iff, !String.eqb_eq, Z.eqb_eq. tauto.
Qed.

Lemma processUpload_begin_eq (file : FileStream) :
  processUpload_begin file
  = if invalidProperties file
    then (Throw (ThrownError "Invalid file properties"), [])
    else (Normal tt, [EvStream file]).
Proof. unfold processUpload_begin. by destruct (invalidProperties file). Qed.

Lemma processUpload_call_eq (file : Member) (variableName : string) :
  processUpload_call file variableName
  = (Normal (taskOfMember file variableName).1, (taskOfMember file variableName).2).
Proof.
  destruct file as [file| |]; [|done..].
  unfold processUpload_call, taskOfMember, taskOf. rewrite processUpload_begin_eq.
  by destruct (invalidProperties file).
Qed.

(** The resumed task either rejects, having assigned nothing, or assigns
    the handle of the file and nothing else. *)
Lemma processUpload_resume_eq file variableName operations allowedTypes :
  processUpload_resume file variableName operations allowedTypes
  = let mime := effectiveMimeType file (streamToBuffer (stream file)) in
    if includes allowedTypes mime then
      match completion (vars_set (variables operations) variableName (handle file mime))
      with
      | Normal vars =>
          (Normal {| query := query operations; variables := vars |},
           [EvAssign variableName (handle file mime)])
      | Throw e => (Throw e, [])
      | Return r => (Return r, [])
      end
    else
      (Throw (ThrownError ("File type " ++ mime
                ++ " is not allowed. Allowed types: " ++ join ", " allowedTypes)),
       []).
Proof.
  unfold processUpload_resume. simpl.
  destruct (includes allowedTypes _); simpl; [|done].
  fold (descriptor file (effectiveMimeType file (streamToBuffer (stream file)))).
  fold (handle file (effectiveMimeType file (streamToBuffer (stream file)))).
  destruct (vars_set_cases (variables operations) variableName
              (handle file (effectiveMimeType file (streamToBuffer (stream file)))))
    as [[vars' Hset]|[e Hset]]; rewrite Hset; done.
Qed.

(** A resumed task that completes has made the assignment. *)
Lemma processUpload_resume_Normal file variableName operations allowedTypes operations' l :
  processUpload_resume file variableName operations allowedTypes
  = (Normal operations', l) ->
  let upload := handle file (effectiveMimeType file (streamToBuffer (stream file))) in
  includes allowedTypes (effectiveMimeType file (streamToBuffer (stream file))) = true
  /\ vars_set (variables operations) variableName upload
     = (Normal (variables operations'), [])
  /\ query operations' = query operations
  /\ l = [EvAssign variableName upload].
Proof.
  rewrite processUpload_resume_eq. cbv zeta.
  destruct (includes allowedTypes _); [|done].
  destruct (vars_set_cases (variables operations) variableName
              (handle file (effectiveMimeType file (streamToBuffer (stream file)))))
    as [[vars' Hset]|[e Hset]]; rewrite Hset; simpl; [|done].
  by intros [= <- <-].
Qed.

Lemma processUpload_resume_cases file variableName operations allowedTypes :
  (exists operations',
      processUpload_resume file variableName operations allowedTypes
      = (Normal operations',
         [EvAssign variableName
            (handle file (effectiveMimeType file (streamToBuffer (stream file))))]))
  \/ (exists e,
        processUpload_resume file variableName operations allowedTypes
        = (Throw e, [])).
Proof.
  rewrite processUpload_resume_eq. cbv zeta.
  destruct (includes allowedTypes _); [|by eauto].
  destruct (vars_set_cases (variables operations) variableName
              (handle file (effectiveMimeType file (streamToBuffer (stream file)))))
    as [[vars' Hset]|[e Hset]]; rewrite Hset; simpl; by eauto.
Qed.

(** C4: the descriptor bound by [processUpload] carries the canonical type
    of the signature found in the buffered bytes if there is one, otherwise
    [text/plain] if the bytes are classified as text, otherwise the type
    the client declared; so a recognised signature decides the type,
    whatever the declared type is. *)
Theorem processUpload_mime_priority
    (file : FileStream) (variableName : string) (operations operations' : Operations)
    (allowedTypes : list string) (l : list Event) :
  processUpload file variableName operations allowedTypes = (Normal operations', l) ->
  exists d : File,
    vars_get (variables operations') variableName
      = Some (SlotUpload (Upload.resolve d Upload.new))
    /\ mimeType d
       = match fileTypeFromBuffer (streamToBuffer (stream file)) with
         | Some mime => mime
         | None => if isText (streamToBuffer (stream file)) then "text/plain"
                   else type file
         end
    /\ (forall mime, fileTypeFromBuffer (streamToBuffer (stream file)) = Some mime ->
        mimeType d = mime).
Proof.
  unfold processUpload. rewrite processUpload_begin_eq.
  destruct (invalidProperties file); [done|]. simpl.
  destruct (processUpload_resume _ _ _ _) as [c l2] eqn:Hresume.
  intros [= -> <-].
  apply processUpload_resume_Normal in Hresume as (_ & Hset & _).
  exists (descriptor file (effectiveMimeType file (streamToBuffer (stream file)))).
  split_and!.
  - by eapply vars_get_set_eq.
  - done.
  - intros mime Hmime. simpl. unfold effectiveMimeType. by rewrite Hmime.
Qed.
End ProcessUpload.

Lemma processUpload_mime_priority_witness :
  let operations := {| query := JStr Demo.query_text;
                       variables := VarsObject ClassObject None
                                      [("file", SlotValue JNull)] |} in
  exists operations' l,
    processUpload Demo.fileTypeFromBuffer Demo.isText Demo.logo_png "file"
      operations ["image/png"] = (Normal operations', l)
    /\ exists d, vars_get (variables operations') "file"
                 = Some (SlotUpload (Upload.resolve d Upload.new))
                 /\ mimeType d = "image/png".
Proof.
  intros operations.
  edestruct (processUpload_mime_priority Demo.fileTypeFromBuffer Demo.isText
               Demo.logo_png "file" operations) with (allowedTypes := ["image/png"])
    as (d & Hget & Hmime & _); [reflexivity|].
  eexists _, _. split; [reflexivity|].
  exists d. split; [exact Hget | exact Hmime].
Defined.

(** ** The stages of [uploadProcess] *)

Lemma assignments_app l1 l2 : assignments (l1 ++ l2) = assignments l1 ++ assignments l2.
Proof. induction l1 as [|[] l1 IH]; simpl; by rewrite ?IH. Qed.

Lemma dispatched_app l1 l2 : dispatched (l1 ++ l2) = dispatched l1 ++ dispatched l2.
Proof. induction l1 as [|[] l1 IH]; simpl; by rewrite ?IH. Qed.

Lemma executions_app l1 l2 : executions (l1 ++ l2) = executions l1 ++ executions l2.
Proof. induction l1 as [|[] l1 IH]; simpl; by rewrite ?IH. Qed.

Lemma executions_elem_of l request contextValue :
  EvExecute request contextValue ∈ l <-> (request, contextValue) ∈ executions l.
Proof.
  induction l as [|ev l IH]; simpl.
  - split; intros H; by apply elem_of_nil in H.
  - rewrite elem_of_cons, IH.
    destruct ev as [k f|k f v|f|v u|r c]; simpl; rewrite ?elem_of_cons;
      try (split; [intros [H|H]; [discriminate H | exact H]
                  | intros H; right; exact H]).
    split; (intros [H|H]; [left; congruence | right; exact H]).
Qed.

Lemma respond_log body : log (respond body) = [].
Proof.
  unfold respond. destruct body as [body|]; [|done].
  destruct (String.eqb _ _).
  - unfold destructure. by destruct (singleResult body).
  - destruct (String.eqb _ _); [|done].
    unfold drain. by destruct (failure _).
Qed.

Section Stages.
Variable JSON_parse : string -> option JValue.
Variable fileTypeFromBuffer : list Byte.byte -> option string.
Variable isText : list Byte.byte -> bool.
Variable Number_toString : Q -> string.
Variable File_inherited : string -> Inherited.

Local Abbreviation sanitizeAndValidateJSON := (sanitizeAndValidateJSON JSON_parse).
Local Abbreviation field_parses := (field_parses JSON_parse).
Local Abbreviation envelope := (envelope JSON_parse).
Local Abbreviation processUpload_resume := (processUpload_resume fileTypeFromBuffer isText).
Local Abbreviation effectiveMimeType := (effectiveMimeType fileTypeFromBuffer isText).
Local Abbreviation resumeAll := (resumeAll fileTypeFromBuffer isText).
Local Abbreviation Promise_all := (Promise_all fileTypeFromBuffer isText).
Local Abbreviation Files_inherited := (Files_inherited File_inherited).
Local Abbreviation Files_get := (Files_get File_inherited).
Local Abbreviation dispatchAll := (dispatchAll Number_toString File_inherited).
Local Abbreviation sizeError := (sizeError Number_toString).
Local Abbreviation uploadProcess :=
  (uploadProcess JSON_parse fileTypeFromBuffer isText Number_toString File_inherited).

(** *** The envelope *)

Lemma sanitizeAndValidateJSON_eq input :
  sanitizeAndValidateJSON input
  = match input with
    | Some (EntryText text) =>
        match JSON_parse text with
        | Some (JObject cls props) => (Normal (JObject cls props), [])
        | _ => (Throw (ThrownError "Invalid JSON input"), [])
        end
    | _ => (Throw (ThrownError "Invalid JSON input"), [])
    end.
Proof.
  unfold sanitizeAndValidateJSON, JSON_parse_entry.
  destruct input as [[text|f]|]; try done.
  destruct (JSON_parse text) as [[]|]; done.
Qed.

Lemma sanitize_field fd field :
  (exists props, field_parses fd field props /\ envelope fd field = Some props)
  \/ ((forall props, ~ field_parses fd field props) /\ envelope fd field = None).
Proof.
  unfold envelope, completion. rewrite sanitizeAndValidateJSON_eq. unfold field_parses.
  destruct (FormData_get fd field) as [[text|f]|] eqn:Hget.
  - destruct (JSON_parse text) as [v|] eqn:Hparse.
    + destruct v as [| | | | |cls props];
        try (right; split; [intros props (t & c & [= <-] & Ht); congruence | done]).
      left. exists props. split; [|done]. by exists text, cls.
    + right. split; [|done]. intros props (t & c & [= <-] & Ht). congruence.
  - right. split; [|done]. by intros props (t & c & [=] & _).
  - right. split; [|done]. by intros props (t & c & [=] & _).
Qed.

Lemma sanitize_parses fd field props :
  field_parses fd field props -> envelope fd field = Some props.
Proof.
  intros (text & cls & Hget & Hparse).
  unfold envelope, completion. by rewrite sanitizeAndValidateJSON_eq, Hget, Hparse.
Qed.

Lemma envelope_None fd field :
  envelope fd field = None ->
  sanitizeAndValidateJSON (FormData_get fd field)
  = (Throw (ThrownError "Invalid JSON input"), []).
Proof.
  unfold envelope, completion. rewrite sanitizeAndValidateJSON_eq.
  destruct (FormData_get fd field) as [[text|f]|]; try done.
  destruct (JSON_parse text) as [[]|]; done.
Qed.

Lemma envelope_Some fd field props :
  envelope fd field = Some props ->
  exists cls, sanitizeAndValidateJSON (FormData_get fd field)
              = (Normal (JObject cls props), []).
Proof.
  unfold envelope, completion. rewrite sanitizeAndValidateJSON_eq.
  destruct (FormData_get fd field) as [[text|f]|]; try done.
  destruct (JSON_parse text) as [[| | | | |cls props']|]; try done.
  intros [= <-]. by exists cls.
Qed.

Lemma field_parses_inj fd field props props' :
  field_parses fd field props -> field_parses fd field props' -> props = props'.
Proof. intros (t & c & Ht & Hp) (t' & c' & Ht' & Hp'). congruence. Qed.

(** *** The dispatch loop *)

Lemma variableNameOf_cases map fileKey :
  (exists variableName, variableNameOf map fileKey = (Normal variableName, []))
  \/ (exists e, variableNameOf map fileKey = (Throw e, [])).
Proof.
  unfold variableNameOf.
  destruct (first_path (member map fileKey)) as [[pathSegment|e|r] l] eqn:Hfirst.
  - assert (l = []) as ->.
    { unfold first_path in Hfirst.
      destruct (member map fileKey) as [| | | |[|]|]; by injection Hfirst. }
    destruct pathSegment; simpl; eauto.
  - right. exists e.
    unfold first_path in Hfirst.
    destruct (member map fileKey) as [| | | |[|]|]; by inversion Hfirst.
  - unfold first_path in Hfirst.
    destruct (member map fileKey) as [| | | |[|]|]; by inversion Hfirst.
Qed.

(** The loop reads the map through its own properties only. *)
Lemma variableNameOf_class cls props fileKey :
  variableNameOf (JObject cls props) fileKey = variableNameOf (JObj props) fileKey.
Proof. done. Qed.

Lemma Files_get_eq (files : Files) fileKey :
  Files_get files fileKey
  = match (files !! fileKey : option FileStream) with
    | Some file => (Normal (MemberFile file), [])
    | None =>
        match Files_inherited files fileKey with
        | NotInherited => (Normal MemberUndefined, [])
        | InheritedMember => (Normal MemberOther, [])
        | InheritedThrows e => (Throw e, [])
        end
    end.
Proof.
  unfold Files_get. destruct (files !! fileKey); [done|].
  by destruct (Files_inherited files fileKey).
Qed.

(** What the read gives is the [File] found under the name, if there is
    one. *)
Lemma Files_get_Normal (files : Files) fileKey m l :
  Files_get files fileKey = (Normal m, l) ->
  l = [] /\ Member_file m = files !! fileKey.
Proof.
  rewrite Files_get_eq. destruct (files !! fileKey) as [file|].
  - by intros [= <- <-].
  - destruct (Files_inherited files fileKey); by intros [= <- <-].
Qed.

Lemma taskOf_events file variableName :
  (taskOf file variableName).2 = []
  \/ (taskOf file variableName).2 = [EvStream file].
Proof. unfold taskOf. destruct (invalidProperties file); auto. Qed.

Lemma taskOfMember_events m variableName :
  (taskOfMember m variableName).2 = []
  \/ exists file, m = MemberFile file
                  /\ invalidProperties file = false
                  /\ (taskOfMember m variableName).2 = [EvStream file].
Proof.
  destruct m as [file| |]; simpl; auto.
  unfold taskOf. destruct (invalidProperties file) eqn:E; eauto.
Qed.

(** One turn of the loop, once [files[fileKey]] has been read. *)
Lemma dispatchAll_member (files : Files) map settings fileKey keys acc m :
  Files_get files fileKey = (Normal m, []) ->
  m <> MemberUndefined ->
  dispatchAll files map settings (fileKey :: keys) acc
  = if oversized m settings
    then (Return (sizeError settings), [EvLookup fileKey (Member_file m)])
    else
      match variableNameOf map fileKey with
      | (Normal variableName, _) =>
          let '(c, l) := dispatchAll files map settings keys
                           (acc ++ [(taskOfMember m variableName).1]) in
          (c, EvLookup fileKey (Member_file m)
                :: EvDispatch fileKey (Member_file m) variableName
                :: (taskOfMember m variableName).2 ++ l)
      | (Throw e, _) => (Throw e, [EvLookup fileKey (Member_file m)])
      | (Return r, _) => (Return r, [EvLookup fileKey (Member_file m)])
      end.
Proof.
  intros Hget Hdefined. simpl. fold (Files_get files fileKey). rewrite Hget. simpl.
  assert (Hexceeds : exceeds m settings = (Normal (oversized m settings), [])).
  { by destruct m. }
  rewrite Hexceeds. simpl.
  destruct (oversized m settings); [done|].
  destruct (variableNameOf_cases map fileKey) as [[v Hv]|[e He]].
  - rewrite Hv. unfold variableNameOf in Hv.
    destruct (first_path (member map fileKey)) as [[pathSegment|e|r] l1]; [|done..].
    simpl in *.
    destruct (split_path pathSegment) as [[segments|e|r] l2]; [|done..].
    simpl in *. injection Hv as <- Hl.
    apply app_eq_nil in Hl as [-> Hl]. rewrite app_nil_r in Hl. subst l2.
    simpl. rewrite processUpload_call_eq. simpl.
    by destruct (dispatchAll _ _ _ _ _).
  - rewrite He. unfold variableNameOf in He.
    destruct (first_path (member map fileKey)) as [[pathSegment|e'|r] l1];
      simpl in *; [|by injection He as -> ->|done].
    destruct (split_path pathSegment) as [[segments|e'|r] l2]; [done| |done].
    simpl in *. injection He as <- Hl.
    apply app_eq_nil in Hl as [-> ->]. done.
Qed.

Lemma oversized_spec m settings :
  (oversized m settings = true
   <-> exists file : FileStream, m = MemberFile file
                                 /\ (maxFileSize settings < size file)%Z)
  /\ (oversized m settings = false <-> within m settings).
Proof.
  unfold within. destruct m as [file| |]; simpl.
  - rewrite Z.ltb_lt, Z.ltb_ge. split; split.
    + intros H. by exists file.
    + by intros (f & [= <-] & H).
    + by intros H f [= <-].
    + intros H. by apply H.
  - split; split; try done. by intros (f & [=] & _).
  - split; split; try done. by intros (f & [=] & _).
Qed.

(** One turn of the loop, by cases: the read of [files[fileKey]] throws,
    or gives [undefined], whose size cannot be read; the file is oversized;
    its path is unusable; or a task is dispatched and the loop goes on. *)
Lemma dispatchAll_step (files : Files) map settings fileKey keys acc c l :
  dispatchAll files map settings (fileKey :: keys) acc = (c, l) ->
  (files !! fileKey = None
     /\ Files_inherited files fileKey <> InheritedMember
     /\ (exists e, c = Throw e)
     /\ (l = [] \/ l = [EvLookup fileKey None]))
  \/ (exists file : FileStream, files !! fileKey = Some file
        /\ (maxFileSize settings < size file)%Z
        /\ c = Return (sizeError settings)
        /\ l = [EvLookup fileKey (Some file)])
  \/ (exists (m : Member) e,
        Files_get files fileKey = (Normal m, [])
        /\ m <> MemberUndefined
        /\ within m settings
        /\ variableNameOf map fileKey = (Throw e, [])
        /\ c = Throw e
        /\ l = [EvLookup fileKey (Member_file m)])
  \/ (exists (m : Member) variableName l',
        Files_get files fileKey = (Normal m, [])
        /\ m <> MemberUndefined
        /\ within m settings
        /\ variableNameOf map fileKey = (Normal variableName, [])
        /\ dispatchAll files map settings keys
             (acc ++ [(taskOfMember m variableName).1]) = (c, l')
        /\ l = EvLookup fileKey (Member_file m)
               :: EvDispatch fileKey (Member_file m) variableName
               :: (taskOfMember m variableName).2 ++ l').
Proof.
  destruct (Files_get files fileKey) as [[m|e|r] lg] eqn:Hget.
  - pose proof (Files_get_Normal _ _ _ _ Hget) as [-> Hfile].
    assert (Hcases : m = MemberUndefined \/ m <> MemberUndefined).
    { destruct m; by auto. }
    destruct Hcases as [->|Hdefined].
    { simpl. fold (Files_get files fileKey). rewrite Hget. simpl.
      intros [= <- <-]. left. split_and!; [done| |by eauto|by right].
      rewrite Files_get_eq in Hget. simpl in Hfile. rewrite <- Hfile in Hget.
      intros Hm. by rewrite Hm in Hget. }
    rewrite (dispatchAll_member _ _ _ _ _ _ _ Hget Hdefined).
    destruct (oversized m settings) eqn:Hsize.
    + apply oversized_spec in Hsize as (file & -> & Hsize).
      intros [= <- <-]. right; left. exists file. by split_and!.
    + apply oversized_spec in Hsize.
      destruct (variableNameOf_cases map fileKey) as [[v Hv]|[e He]].
      * rewrite Hv. destruct (dispatchAll _ _ _ keys _) as [c' l'] eqn:Hrec.
        intros [= <- <-]. do 3 right. by exists m, v, l'.
      * rewrite He. intros [= <- <-]. right; right; left. by exists m, e.
  - assert (lg = [] /\ files !! fileKey = None
            /\ Files_inherited files fileKey = InheritedThrows e)
      as (-> & Hfile & Hinherited).
    { rewrite Files_get_eq in Hget. destruct (files !! fileKey); [done|].
      destruct (Files_inherited files fileKey); by inversion Hget. }
    simpl. fold (Files_get files fileKey). rewrite Hget. simpl.
    intros [= <- <-]. left.
    split_and!; [done|by rewrite Hinherited|by eauto|by left].
  - rewrite Files_get_eq in Hget.
    destruct (files !! fileKey) as [file|]; [done|].
    by destruct (Files_inherited files fileKey).
Qed.

(** The loop reads the own properties of the map only. *)
Lemma dispatchAll_class files cls props settings keys acc :
  dispatchAll files (JObject cls props) settings keys acc
  = dispatchAll files (JObj props) settings keys acc.
Proof.
  revert acc. induction keys as [|k keys IH]; intros acc; [done|].
  destruct (Files_get files k) as [[m|e|r] lg] eqn:Hget.
  - pose proof (Files_get_Normal _ _ _ _ Hget) as [-> _].
    assert (Hcases : m = MemberUndefined \/ m <> MemberUndefined).
    { destruct m; by auto. }
    destruct Hcases as [->|Hdefined].
    { simpl. fold (Files_get files k). by rewrite Hget. }
    rewrite !(dispatchAll_member _ _ _ _ _ _ _ Hget Hdefined).
    rewrite variableNameOf_class.
    destruct (oversized m settings); [done|].
    destruct (variableNameOf (JObj props) k) as [[v|e|r] lv]; [|done..].
    by rewrite IH.
  - simpl. fold (Files_get files k). by rewrite Hget.
  - simpl. fold (Files_get files k). by rewrite Hget.
Qed.

(** The loop assigns no variable and does not call the engine. *)
Lemma dispatchAll_kinds files map settings keys acc c l :
  dispatchAll files map settings keys acc = (c, l) ->
  assignments l = [] /\ executions l = [].
Proof.
  revert acc c l. induction keys as [|fileKey keys IH]; intros acc c l H.
  { by injection H as <- <-. }
  apply dispatchAll_step in H
    as [(_ & _ & _ & [->| ->])|[(f & _ & _ & _ & ->)|[(m & e & _ & _ & _ & _ & _ & ->)
        |(m & v & l' & _ & _ & _ & _ & Hrec & ->)]]]; [done..|].
  apply IH in Hrec as [Ha He]. simpl.
  rewrite assignments_app, executions_app, Ha, He.
  by destruct (taskOfMember_events m v) as [-> |(f & _ & _ & ->)].
Qed.

(** An early [return] of the loop is the size error. *)
Lemma dispatchAll_return files map settings keys acc r l :
  dispatchAll files map settings keys acc = (Return r, l) ->
  r = sizeError settings.
Proof.
  revert acc l. induction keys as [|fileKey keys IH]; intros acc l H; [done|].
  apply dispatchAll_step in H
    as [(_ & _ & [e [=]] & _)|[(f & _ & _ & [= ->] & _)|[(m & e & _ & _ & _ & _ & [=] & _)
        |(m & v & l' & _ & _ & _ & _ & Hrec & _)]]]; [done|].
  by eapply IH.
Qed.

(** The lookup of an oversized file ends the loop at once: the loop
    returns the size error, tasks have been dispatched for the field names
    before that one and for no other, and the lookup is the last event. *)
Lemma dispatchAll_oversized files map settings keys acc c l fileKey file :
  dispatchAll files map settings keys acc = (c, l) ->
  EvLookup fileKey (Some file) ∈ l ->
  (maxFileSize settings < size file)%Z ->
  c = Return (sizeError settings)
  /\ exists before earlier later,
      l = before ++ [EvLookup fileKey (Some file)]
      /\ keys = earlier ++ fileKey :: later
      /\ dispatched l = earlier.
Proof.
  revert acc c l. induction keys as [|k keys IH]; intros acc c l H Hin Hsize.
  { injection H as <- <-. by apply elem_of_nil in Hin. }
  apply dispatchAll_step in H
    as [(_ & _ & _ & [->| ->])|[(f & _ & _ & -> & ->)|[(m & e & _ & _ & Hle & _ & _ & ->)
        |(m & v & l' & _ & _ & Hle & _ & Hrec & ->)]]].
  - by apply elem_of_nil in Hin.
  - apply list_elem_of_singleton in Hin. done.
  - apply list_elem_of_singleton in Hin as [= <- <-].
    split; [done|]. by exists [], [], keys.
  - apply list_elem_of_singleton in Hin as [= <- Hm].
    destruct m as [f| |]; [|done..]. injection Hm as Hm. subst.
    specialize (Hle _ eq_refl). lia.
  - apply elem_of_cons in Hin as [[= <- Hm]|Hin].
    { destruct m as [f| |]; [|done..]. injection Hm as Hm. subst.
      specialize (Hle _ eq_refl). lia. }
    apply elem_of_cons in Hin as [[=]|Hin].
    apply elem_of_app in Hin as [Hin|Hin].
    { destruct (taskOfMember_events m v) as [E|(f & _ & _ & E)]; rewrite E in Hin.
      - by apply elem_of_nil in Hin.
      - by apply list_elem_of_singleton in Hin. }
    destruct (IH _ _ _ Hrec Hin Hsize)
      as (-> & before & earlier & later & -> & -> & Hd).
    split; [done|].
    exists (EvLookup k (Member_file m) :: EvDispatch k (Member_file m) v
              :: (taskOfMember m v).2 ++ before),
           (k :: earlier), later.
    split_and!.
    + simpl. by rewrite <- app_assoc.
    + done.
    + simpl. rewrite dispatched_app, Hd.
      by destruct (taskOfMember_events m v) as [-> |(f & _ & _ & ->)].
Qed.

(** *** The join of the binding tasks *)

Local Abbreviation bound := (bound fileTypeFromBuffer isText).

Lemma resumeAll_events order operations allowedTypes c l :
  resumeAll order operations allowedTypes = (c, l) ->
  Forall (fun ev => exists variableName upload, ev = EvAssign variableName upload) l
  /\ (forall r, c <> Return r).
Proof.
  revert operations c l.
  induction order as [|[file v] order IH]; intros operations c l H.
  { by injection H as <- <-. }
  simpl in H.
  destruct (processUpload_resume_cases fileTypeFromBuffer isText
              file v operations allowedTypes) as [[operations' Hr]|[e Hr]];
    rewrite Hr in H; simpl in H; [|by injection H as <- <-].
  destruct (resumeAll order _ _) as [c' l'] eqn:Hrec.
  injection H as <- <-. apply IH in Hrec as [Hl Hc].
  split; [|done]. constructor; eauto.
Qed.

(** When every task completes, the variables are the initial ones with
    the handles assigned in the order of completion. *)
Lemma resumeAll_Normal order operations allowedTypes operations' l :
  resumeAll order operations allowedTypes = (Normal operations', l) ->
  assignments l = bound <$> order
  /\ query operations' = query operations
  /\ variables operations' = foldl assign (variables operations) (assignments l).
Proof.
  revert operations l.
  induction order as [|[file v] order IH]; intros operations l H.
  { by injection H as <- <-. }
  simpl in H.
  destruct (processUpload_resume file v operations allowedTypes)
    as [[operations1|e|r] l1] eqn:Hr; [|done..].
  apply processUpload_resume_Normal in Hr as (_ & Hset & Hq1 & ->).
  simpl in H. destruct (resumeAll order _ _) as [c' l'] eqn:Hrec.
  injection H as -> <-. apply IH in Hrec as (Ha & Hq & Hv).
  split_and!.
  - simpl. by rewrite Ha.
  - congruence.
  - simpl. by rewrite (assign_eq _ _ _ _ _ Hset).
Qed.

Lemma Promise_all_events schedule tasks operations allowedTypes c l :
  Promise_all schedule tasks operations allowedTypes = (c, l) ->
  Forall (fun ev => exists variableName upload, ev = EvAssign variableName upload) l
  /\ (forall r, c <> Return r).
Proof.
  unfold Promise_all. destruct (first_rejection tasks).
  - by intros [= <- <-].
  - apply resumeAll_events.
Qed.

Lemma only_assignments l :
  Forall (fun ev => exists variableName upload, ev = EvAssign variableName upload) l ->
  dispatched l = [] /\ executions l = []
  /\ (forall fileKey file, EvLookup fileKey file ∉ l).
Proof.
  induction 1 as [|ev l (v & u & ->) _ (Hd & He & Hl)]; simpl.
  - split_and!; [done..|]. intros k f Hin. by apply elem_of_nil in Hin.
  - split_and!; [done..|]. intros k f [[=]|Hin]%elem_of_cons. by eapply Hl.
Qed.

(** *** [uploadProcess], stage by stage *)

Lemma uploadProcess_eq request context server settings schedule :
  uploadProcess request context server settings schedule
  = match formData request with
    | inl e => failed e []
    | inr fd =>
        match envelope fd "map", envelope fd "operations" with
        | Some mprops, Some oprops =>
            match dispatchAll (extractFiles fd) (JObj mprops) settings mprops.*1 [] with
            | (Normal tasks, l1) =>
                match Promise_all schedule tasks (toOperations (JObj oprops))
                        (allowedTypes settings) with
                | (Normal operations, l2) =>
                    executeStage server context operations (l1 ++ l2)
                | (Throw e, l2) => failed e (l1 ++ l2)
                | (Return r, l2) => {| response := Some r; events := l1 ++ l2 |}
                end
            | (Throw e, l1) => failed e l1
            | (Return r, l1) => {| response := Some r; events := l1 |}
            end
        | _, _ => failed (ThrownError "Invalid JSON input") []
        end
    end.
Proof.
  unfold uploadProcess, uploadProcess_try.
  destruct (formData request) as [e|fd]; [done|]. simpl.
  destruct (envelope fd "map") as [mprops|] eqn:Hm;
    [|by rewrite (envelope_None _ _ Hm)].
  destruct (envelope_Some _ _ _ Hm) as [mcls ->].
  destruct (envelope fd "operations") as [oprops|] eqn:Ho;
    [|by rewrite (envelope_None _ _ Ho)].
  destruct (envelope_Some _ _ _ Ho) as [ocls ->].
  simpl. rewrite dispatchAll_class.
  change (toOperations (JObject ocls oprops)) with (toOperations (JObj oprops)).
  destruct (dispatchAll _ _ _ _ _) as [[tasks|e|r] l1]; simpl;
    [|unfold failed, failureResponse; by rewrite ?app_nil_r..].
  destruct (Promise_all _ _ _ _) as [[operations|e|r] l2]; simpl;
    [|unfold failed, failureResponse; by rewrite ?app_nil_r..].
  unfold executeStage, failed, failureResponse.
  destruct context as [e|contextValue]; simpl.
  { by rewrite !app_nil_r. }
  destruct (executeOperation server _ contextValue) as [e|body]; simpl.
  { by rewrite !app_nil_r, app_assoc. }
  pose proof (respond_log body) as Hlog. unfold log, completion in *.
  destruct (respond body) as [[[]|e|r] lr]; simpl in *; subst lr;
    by rewrite ?app_nil_r, ?app_assoc.
Qed.

Lemma executeStage_events server context operations l :
  exists tail,
    events (executeStage server context operations l) = l ++ tail
    /\ (tail = [] \/ exists request contextValue,
                       tail = [EvExecute request contextValue]).
Proof.
  unfold executeStage. destruct context as [e|contextValue]; simpl.
  { exists []. by rewrite app_nil_r; auto. }
  eexists [_]. split; [|eauto].
  destruct (executeOperation server _ contextValue) as [e|body]; [done|].
  by destruct (completion (respond body)).
Qed.

Lemma first_rejection_app tasks tasks' :
  first_rejection (tasks ++ tasks')
  = match first_rejection tasks with
    | Some e => Some e
    | None => first_rejection tasks'
    end.
Proof. induction tasks as [|[e|f v] tasks IH]; simpl; auto. Qed.

(** A field of the map that cannot be bound, because no file was uploaded
    under its name or because the properties of its file are invalid, stops
    the loop, or leaves a rejected promise among those the loop collects. *)
Lemma dispatchAll_rejects (files : Files) map settings keys acc tasks l :
  dispatchAll files map settings keys acc = (Normal tasks, l) ->
  is_Some (first_rejection acc)
  \/ (exists fileKey,
        fileKey ∈ keys
        /\ (files !! fileKey = None
            \/ exists file : FileStream,
                 files !! fileKey = Some file /\ invalidProperties file = true)) ->
  is_Some (first_rejection tasks).
Proof.
  revert acc l. induction keys as [|k keys IH]; intros acc l H Hcause.
  { injection H as <- <-. destruct Hcause as [?|(k & Hin & _)]; [done|].
    by apply elem_of_nil in Hin. }
  apply dispatchAll_step in H
    as [(_ & _ & [e [=]] & _)|[(f & _ & _ & [=] & _)|[(m & e & _ & _ & _ & _ & [=] & _)
        |(m & v & l' & Hget & Hdefined & _ & _ & Hrec & _)]]].
  apply Files_get_Normal in Hget as [_ Hm].
  eapply IH; [exact Hrec|]. rewrite first_rejection_app.
  destruct Hcause as [[e He]|(k' & Hin & Hcause)].
  { left. by rewrite He. }
  apply elem_of_cons in Hin as [->|Hin]; [|right; eauto].
  left. destruct (first_rejection acc); [done|].
  destruct Hcause as [Hnone|(file & Hfile & Hinvalid)].
  - rewrite Hnone in Hm. by destruct m.
  - rewrite Hfile in Hm. destruct m as [f| |]; [|done..].
    injection Hm as ->. simpl. unfold taskOf. by rewrite Hinvalid.
Qed.

(** *** Requests that fail *)

(** C3: if the [map] field or the [operations] field is absent from the
    form data, or is not a text that parses to a non-null JSON object, the
    answer is an error response and the run has no event at all: no file
    was looked up, no binding task dispatched, no stream opened to be
    buffered, and the execution engine was not called. *)
Theorem malformed_envelope_fails_fast
    request context server settings schedule fd :
  formData request = inr fd ->
  (forall props, ~ field_parses fd "map" props)
  \/ (forall props, ~ field_parses fd "operations" props) ->
  uploadProcess request context server settings schedule
  = {| response := Some (JsonError "Error processing upload: Invalid JSON input");
       events := [] |}.
Proof.
  intros Hfd Hbad. rewrite uploadProcess_eq, Hfd.
  destruct (sanitize_field fd "map") as [(mprops & Hm & ->)|(_ & ->)]; [|done].
  destruct (sanitize_field fd "operations") as [(oprops & Ho & ->)|(_ & ->)]; [|done].
  destruct Hbad as [Hbad|Hbad]; by edestruct Hbad.
Qed.

(** C2: if a file looked up for a field name of the map has a declared
    size greater than [maxFileSize], the answer is the error response whose
    message gives [maxFileSize / (1024 * 1024)] megabytes; the engine is
    not called; binding tasks were dispatched for the field names that
    come before that one in the map and for no other; the lookup is the
    last event of the run. *)
Theorem oversized_file_aborts
    request context server settings schedule fileKey (file : FileStream) :
  let run := uploadProcess request context server settings schedule in
  EvLookup fileKey (Some file) ∈ events run ->
  (maxFileSize settings < size file)%Z ->
  response run
  = Some (JsonError
            ("File size is too large. Maximum allowed size is "
             ++ Number_toString
                  (inject_Z (maxFileSize settings) / inject_Z (1024 * 1024))%Q
             ++ "MB."))
  /\ executions (events run) = []
  /\ exists fd mprops earlier later before,
      formData request = inr fd
      /\ field_parses fd "map" mprops
      /\ mprops.*1 = earlier ++ fileKey :: later
      /\ dispatched (events run) = earlier
      /\ events run = before ++ [EvLookup fileKey (Some file)].
Proof.
  intros run. subst run. rewrite uploadProcess_eq.
  destruct (formData request) as [e|fd]; simpl.
  { intros Hin. by apply elem_of_nil in Hin. }
  destruct (sanitize_field fd "map") as [(mprops & Hm & ->)|(_ & ->)]; simpl;
    [|intros Hin; by apply elem_of_nil in Hin].
  destruct (sanitize_field fd "operations") as [(oprops & Ho & ->)|(_ & ->)]; simpl;
    [|intros Hin; by apply elem_of_nil in Hin].
  destruct (dispatchAll _ _ _ _ _) as [c l1] eqn:Hdispatch.
  assert (Hover : EvLookup fileKey (Some file) ∈ l1 ->
                  (maxFileSize settings < size file)%Z ->
                  c = Return (sizeError settings)
                  /\ exists before earlier later,
                      l1 = before ++ [EvLookup fileKey (Some file)]
                      /\ mprops.*1 = earlier ++ fileKey :: later
                      /\ dispatched l1 = earlier).
  { apply (dispatchAll_oversized _ _ _ _ _ _ _ _ _ Hdispatch). }
  destruct c as [tasks|e|r].
  - destruct (Promise_all _ _ _ _) as [c2 l2] eqn:Hjoin.
    apply Promise_all_events in Hjoin as [Hl2 _].
    apply only_assignments in Hl2 as (_ & _ & Hl2).
    intros Hin Hsize. exfalso.
    assert (Hin1 : EvLookup fileKey (Some file) ∈ l1); [|by destruct Hover].
    destruct c2 as [operations|e|r]; simpl in Hin.
    + destruct (executeStage_events server context operations (l1 ++ l2))
        as (tail & Hev & Htail).
      rewrite Hev in Hin.
      apply elem_of_app in Hin as [[Hin|Hin]%elem_of_app|Hin]; [done| |].
      * by apply Hl2 in Hin.
      * destruct Htail as [->|(rq & cv & ->)].
        -- by apply elem_of_nil in Hin.
        -- by apply list_elem_of_singleton in Hin.
    + apply elem_of_app in Hin as [Hin|Hin]; [done|by apply Hl2 in Hin].
    + apply elem_of_app in Hin as [Hin|Hin]; [done|by apply Hl2 in Hin].
  - simpl. intros Hin Hsize. by destruct Hover.
  - simpl. intros Hin Hsize.
    destruct Hover as ([= ->] & before & earlier & later & Hl1 & Hkeys & Hd);
      [done..|].
    split_and!; [done|by eapply dispatchAll_kinds|].
    by exists fd, mprops, earlier, later, before.
Qed.

(** C5: if a field name of the map has no uploaded file, the answer is an
    error response and the execution engine is not called. *)
Theorem missing_file_fails
    request context server settings schedule fd mprops fileKey :
  let run := uploadProcess request context server settings schedule in
  formData request = inr fd ->
  field_parses fd "map" mprops ->
  fileKey ∈ mprops.*1 ->
  extractFiles fd !! fileKey = None ->
  (exists message, response run = Some (JsonError message))
  /\ executions (events run) = [].
Proof.
  intros run Hfd Hmap Hin Hnone. subst run. rewrite uploadProcess_eq, Hfd.
  rewrite (sanitize_parses _ _ _ Hmap).
  destruct (sanitize_field fd "operations") as [(oprops & Ho & ->)|(_ & ->)]; simpl;
    [|by eauto].
  destruct (dispatchAll _ _ _ _ _) as [c l1] eqn:Hdispatch.
  pose proof (dispatchAll_kinds _ _ _ _ _ _ _ Hdispatch) as [_ Hexec].
  destruct c as [tasks|e|r]; simpl.
  - destruct (dispatchAll_rejects _ _ _ _ _ _ _ Hdispatch) as [e He]; [by eauto 6|].
    unfold Promise_all. rewrite He. simpl. rewrite app_nil_r.
    unfold failureResponse. eauto.
  - unfold failureResponse. eauto.
  - apply dispatchAll_return in Hdispatch as ->. unfold sizeError. eauto.
Qed.

(** C10: a mapped file whose name is empty, whose declared size is 0 or
    whose declared type is empty makes [processUpload] throw
    [Invalid file properties], whatever the policy; the request is
    answered by an error response and the execution engine is not
    called. *)
Theorem invalid_file_properties_rejected
    request context server settings schedule fd mprops fileKey (file : FileStream) :
  let run := uploadProcess request context server settings schedule in
  formData request = inr fd ->
  field_parses fd "map" mprops ->
  fileKey ∈ mprops.*1 ->
  extractFiles fd !! fileKey = Some file ->
  name file = "" \/ size file = 0%Z \/ type file = "" ->
  (forall variableName operations allowedTypes,
      processUpload fileTypeFromBuffer isText file variableName operations allowedTypes
      = (Throw (ThrownError "Invalid file properties"), []))
  /\ (exists message, response run = Some (JsonError message))
  /\ executions (events run) = [].
Proof.
  intros run Hfd Hmap Hin Hfile Hinvalid. subst run.
  apply invalidProperties_spec in Hinvalid. split.
  { intros v operations allowed. unfold processUpload.
    rewrite processUpload_begin_eq, Hinvalid. done. }
  rewrite uploadProcess_eq, Hfd.
  rewrite (sanitize_parses _ _ _ Hmap).
  destruct (sanitize_field fd "operations") as [(oprops & Ho & ->)|(_ & ->)]; simpl;
    [|by eauto].
  destruct (dispatchAll _ _ _ _ _) as [c l1] eqn:Hdispatch.
  pose proof (dispatchAll_kinds _ _ _ _ _ _ _ Hdispatch) as [_ Hexec].
  destruct c as [tasks|e|r]; simpl.
  - destruct (dispatchAll_rejects _ _ _ _ _ _ _ Hdispatch) as [e He]; [by eauto 8|].
    unfold Promise_all. rewrite He. simpl. rewrite app_nil_r.
    unfold failureResponse. eauto.
  - unfold failureResponse. eauto.
  - apply dispatchAll_return in Hdispatch as ->. unfold sizeError. eauto.
Qed.

(** *** Runs that reach the execution engine *)

Lemma uploadProcess_executes request context server settings schedule rq cv :
  EvExecute rq cv ∈ events (uploadProcess request context server settings schedule) ->
  exists fd mprops oprops tasks l1 operations l2,
    formData request = inr fd
    /\ field_parses fd "map" mprops
    /\ field_parses fd "operations" oprops
    /\ dispatchAll (extractFiles fd) (JObj mprops) settings mprops.*1 [] = (Normal tasks, l1)
    /\ Promise_all schedule tasks (toOperations (JObj oprops)) (allowedTypes settings)
       = (Normal operations, l2)
    /\ context = inr cv
    /\ rq = {| req_query := query operations;
               req_variables := removeUnset (variables operations) |}
    /\ uploadProcess request context server settings schedule
       = executeStage server context operations (l1 ++ l2)
    /\ events (uploadProcess request context server settings schedule)
       = (l1 ++ l2) ++ [EvExecute rq cv].
Proof.
  rewrite uploadProcess_eq.
  destruct (formData request) as [e|fd]; simpl.
  { intros Hin. by apply elem_of_nil in Hin. }
  destruct (sanitize_field fd "map") as [(mprops & Hm & ->)|(_ & ->)]; simpl;
    [|intros Hin; by apply elem_of_nil in Hin].
  destruct (sanitize_field fd "operations") as [(oprops & Ho & ->)|(_ & ->)]; simpl;
    [|intros Hin; by apply elem_of_nil in Hin].
  destruct (dispatchAll _ _ _ _ _) as [c l1] eqn:Hdispatch.
  pose proof (dispatchAll_kinds _ _ _ _ _ _ _ Hdispatch) as [_ Hexec1].
  assert (Hno1 : forall l, (rq, cv) ∈ executions (l1 ++ l) -> (rq, cv) ∈ executions l).
  { intros l. by rewrite executions_app, Hexec1. }
  destruct c as [tasks|e|r]; simpl;
    [|intros Hin%executions_elem_of; rewrite Hexec1 in Hin;
      by apply elem_of_nil in Hin..].
  destruct (Promise_all _ _ _ _) as [c2 l2] eqn:Hjoin.
  pose proof Hjoin as [Hl2 _]%Promise_all_events.
  apply only_assignments in Hl2 as (_ & Hexec2 & _).
  destruct c2 as [operations|e|r]; simpl;
    [|intros Hin%executions_elem_of%Hno1; rewrite Hexec2 in Hin;
      by apply elem_of_nil in Hin..].
  intros Hin. exists fd, mprops, oprops, tasks, l1, operations, l2.
  unfold executeStage in *. destruct context as [e|contextValue]; simpl in Hin.
  { apply executions_elem_of, Hno1 in Hin. rewrite Hexec2 in Hin.
    by apply elem_of_nil in Hin. }
  assert (rq = {| req_query := query operations;
                  req_variables := removeUnset (variables operations) |}
          /\ cv = contextValue) as [-> ->].
  { assert (Hin' : EvExecute rq cv ∈
              (l1 ++ l2) ++ [EvExecute {| req_query := query operations;
                               req_variables := removeUnset (variables operations) |}
                               contextValue]).
    { destruct (executeOperation server _ contextValue) as [e|body]; [done|].
      by destruct (completion (respond body)). }
    apply executions_elem_of in Hin'.
    rewrite !executions_app, Hexec1, Hexec2 in Hin'. simpl in Hin'.
    by apply list_elem_of_singleton in Hin' as [= -> ->]. }
  split_and!; try done. simpl.
  destruct (executeOperation server _ contextValue) as [e|body]; [done|].
  by destruct (completion (respond body)).
Qed.

(** *** The removal of the unset variables *)

Lemma deleteIfUnset_get_ne props key k :
  key <> k -> prop_get (deleteIfUnset props key) k = prop_get props k.
Proof.
  intros Hne. unfold deleteIfUnset.
  destruct (negb _); [by apply prop_get_delete_ne | done].
Qed.

Lemma deleteIfUnset_get_eq props key :
  prop_get (deleteIfUnset props key) key
  = match prop_get props key with
    | Some s => if slot_truthy s then Some s else None
    | None => None
    end.
Proof.
  unfold deleteIfUnset.
  destruct (prop_get props key) as [s|] eqn:Hget; simpl.
  - destruct (slot_truthy s); simpl; [done|]. apply prop_get_delete_eq.
  - apply prop_get_delete_eq.
Qed.

Lemma deleteIfUnset_get_Some props key k s :
  prop_get (deleteIfUnset props key) k = Some s -> prop_get props k = Some s.
Proof.
  destruct (decide (key = k)) as [->|Hne].
  - rewrite deleteIfUnset_get_eq.
    destruct (prop_get props k) as [s'|]; [|done]. by destruct (slot_truthy s').
  - by rewrite deleteIfUnset_get_ne.
Qed.

(** What the loop leaves was there before it. *)
Lemma removeUnset_from props keys k s :
  prop_get (foldl deleteIfUnset props keys) k = Some s -> prop_get props k = Some s.
Proof.
  revert props. induction keys as [|key keys IH]; intros props; [done|].
  simpl. intros H%IH. by eapply deleteIfUnset_get_Some.
Qed.

(** A truthy value is never deleted. *)
Lemma removeUnset_truthy props keys k s :
  prop_get props k = Some s -> slot_truthy s = true ->
  prop_get (foldl deleteIfUnset props keys) k = Some s.
Proof.
  revert props. induction keys as [|key keys IH]; intros props Hget Hs; [done|].
  simpl. apply IH; [|done].
  destruct (decide (key = k)) as [->|Hne].
  - by rewrite deleteIfUnset_get_eq, Hget, Hs.
  - by rewrite deleteIfUnset_get_ne.
Qed.

(** A falsy value is deleted when its key is visited. *)
Lemma removeUnset_falsy props keys k s :
  k ∈ keys -> prop_get props k = Some s -> slot_truthy s = false ->
  prop_get (foldl deleteIfUnset props keys) k = None.
Proof.
  revert props. induction keys as [|key keys IH]; intros props Hin Hget Hs.
  { by apply elem_of_nil in Hin. }
  simpl. destruct (decide (key = k)) as [->|Hne].
  - destruct (prop_get (foldl _ _ _) k) as [s'|] eqn:Hafter; [|done].
    apply removeUnset_from in Hafter.
    by rewrite deleteIfUnset_get_eq, Hget, Hs in Hafter.
  - apply elem_of_cons in Hin as [->|Hin]; [done|].
    apply IH; [done| |done]. by rewrite deleteIfUnset_get_ne.
Qed.

Lemma removeUnset_props props :
  (forall k s, prop_get props k = Some s -> slot_truthy s = false ->
               prop_get (foldl deleteIfUnset props props.*1) k = None)
  /\ (forall k s, prop_get props k = Some s -> slot_truthy s = true ->
                  prop_get (foldl deleteIfUnset props props.*1) k = Some s)
  /\ (forall k s, prop_get (foldl deleteIfUnset props props.*1) k = Some s ->
                  slot_truthy s = true)
  /\ (forall k, prop_get props k = None ->
                prop_get (foldl deleteIfUnset props props.*1) k = None).
Proof.
  split_and!.
  - intros k s Hget Hs. eapply removeUnset_falsy; [|done..].
    by eapply prop_get_Some_key.
  - intros k s. apply removeUnset_truthy.
  - intros k s Hafter. pose proof (removeUnset_from _ _ _ _ Hafter) as Hget.
    destruct (slot_truthy s) eqn:Hs; [done|].
    erewrite removeUnset_falsy in Hafter; [done| |done..].
    by eapply prop_get_Some_key.
  - intros k Hnone.
    destruct (prop_get (foldl _ _ _) k) as [s|] eqn:Hafter; [|done].
    apply removeUnset_from in Hafter. congruence.
Qed.

Lemma toVariables_own_proto v : own_proto_unassigned (toVariables v).
Proof. by destruct v. Qed.

Lemma vars_set_own_proto vars k u vars' l :
  vars_set vars k u = (Normal vars', l) ->
  own_proto_unassigned vars -> own_proto_unassigned vars'.
Proof.
  unfold own_proto_unassigned.
  destruct vars as [cls proto props|v]; simpl; [|done].
  assert (Hcase : (if String.eqb k "__proto__" && negb (owns props k)
                   then ret (VarsObject cls (Some u) props)
                   else ret (VarsObject cls proto (prop_set props k (SlotUpload u))))
                  = (Normal vars', l) ->
                  (owns props "__proto__" = true -> proto = None) ->
                  owns (vars_own vars') "__proto__" = true -> vars_proto vars' = None).
  { destruct (String.eqb k "__proto__") eqn:Ek; simpl.
    - apply String.eqb_eq in Ek as ->.
      destruct (owns props "__proto__") eqn:Eo; simpl; intros [= <- <-]; simpl.
      + auto.
      + congruence.
    - apply String.eqb_neq in Ek. intros [= <- <-]. simpl.
      by rewrite owns_set_ne. }
  destruct cls, (String.eqb k "length"); done.
Qed.

Lemma foldl_assign_own_proto vars (l : list (string * Upload.t)) :
  own_proto_unassigned vars -> own_proto_unassigned (foldl assign vars l).
Proof.
  revert vars. induction l as [|[k u] l IH]; intros vars Hvars; [done|].
  simpl. apply IH. unfold assign. simpl.
  destruct (vars_set_cases vars k u) as [[vars' Hset]|[e Hset]];
    rewrite Hset; simpl; [|done].
  by eapply vars_set_own_proto.
Qed.


(** What the variables read after the loop, they read before it. *)
Lemma removeUnset_get vars k s :
  own_proto_unassigned vars ->
  vars_get (removeUnset vars) k = Some s -> vars_get vars k = Some s.
Proof.
  unfold own_proto_unassigned.
  destruct vars as [cls proto props|v]; simpl; [|done]. intros Hown.
  destruct (prop_get (foldl deleteIfUnset props props.*1) k) as [s'|] eqn:Hk.
  - apply removeUnset_from in Hk. by rewrite Hk.
  - destruct (String.eqb k "__proto__") eqn:Ek; [|done].
    apply String.eqb_eq in Ek as ->.
    destruct (prop_get props "__proto__") as [s'|] eqn:Hp; [|done].
    rewrite Hown; [done|]. apply owns_true. by rewrite Hp.
Qed.


Lemma drain_eq subsequentResults results :
  drain subsequentResults results
  = match failure subsequentResults with
    | Some e => (Throw e, [])
    | None => (Normal (results ++ emitted subsequentResults), [])
    end.
Proof.
  unfold drain.
  assert (forall l rs, foldl (fun rs r => rs ++ [r]) rs l = rs ++ l) as ->.
  { induction l as [|r l IH]; intros rs; simpl; [by rewrite app_nil_r|].
    by rewrite IH, <- app_assoc. }
  by destruct (failure subsequentResults).
Qed.

(** C8: when the engine answers with a body of kind [single] that carries
    a single result, the response is the [data] and the [errors] of that
    result; when it answers with a body of kind [incremental], the
    response is the list made of the initial result followed by every
    subsequent result, in the order of emission; it is produced once the
    sequence is exhausted. *)
Theorem response_shaping
    request context server settings schedule rq cv body :
  let run := uploadProcess request context server settings schedule in
  EvExecute rq cv ∈ events run ->
  executeOperation server rq cv = ExecutionResponse (Some body) ->
  (kind body = "single" ->
   singleResult body <> JUndefined -> singleResult body <> JNull ->
   response run = Some (JsonData (member (singleResult body) "data")
                                 (member (singleResult body) "errors")))
  /\ (kind body = "incremental" ->
      failure (subsequentResults body) = None ->
      response run = Some (JsonResults (initialResult body
                                          :: emitted (subsequentResults body)))).
Proof.
  intros run Hin Hexec. subst run.
  apply uploadProcess_executes in Hin
    as (fd & mprops & oprops & tasks & l1 & operations & l2
        & _ & _ & _ & _ & _ & -> & -> & -> & _).
  unfold executeStage. rewrite Hexec. unfold respond, completion.
  split.
  - intros -> Hu Hn. simpl. unfold destructure.
    by destruct (singleResult body).
  - intros -> Hnone. simpl. rewrite drain_eq, Hnone. done.
Qed.

(** *** Requests whose files are all bound *)

(** Every schedule resumes each suspended task exactly once. *)
Lemma completion_order_Permutation {A} (schedule : list nat) (tasks : list A) :
  completion_order schedule tasks ≡ₚ tasks.
Proof.
  revert schedule. induction tasks as [|t tasks IH]; intros schedule; [done|].
  simpl. rewrite <- Permutation_middle, take_drop. by rewrite IH.
Qed.

(** Every order of completion is the order of some schedule. *)
Lemma completion_order_complete {A} (tasks order : list A) :
  order ≡ₚ tasks -> exists schedule, completion_order schedule tasks = order.
Proof.
  revert order. induction tasks as [|t tasks IH]; intros order Hperm.
  { apply Permutation_nil_r in Hperm as ->. by exists []. }
  destruct (Permutation_vs_cons_inv Hperm) as (l1 & l2 & ->).
  symmetry in Hperm. apply Permutation_cons_app_inv in Hperm.
  symmetry in Hperm. destruct (IH _ Hperm) as [schedule Hschedule].
  exists (length l1 :: schedule). cbn [completion_order tail hd].
  rewrite Hschedule, length_app.
  rewrite Nat.mod_small by lia.
  by rewrite take_app_length, drop_app_length.
Qed.

(** The empty schedule resumes the tasks in the order of dispatch. *)
Lemma completion_order_nil {A} (tasks : list A) : completion_order [] tasks = tasks.
Proof.
  induction tasks as [|t tasks IH]; [done|].
  cbn [completion_order tail hd]. rewrite IH.
  replace (0 `mod` S (length tasks))%nat with 0%nat; [done|].
  symmetry. apply Nat.Div0.mod_0_l.
Qed.











(** *** The run that returns no response *)

(** [uploadProcess] ends without a response only when the engine was
    called and answered with a body whose kind is neither [single] nor
    [incremental]. *)
Lemma uploadProcess_no_response request context server settings schedule :
  response (uploadProcess request context server settings schedule) = None ->
  exists rq cv body,
    EvExecute rq cv ∈ events (uploadProcess request context server settings schedule)
    /\ executeOperation server rq cv = ExecutionResponse (Some body)
    /\ kind body <> "single" /\ kind body <> "incremental".
Proof.
  rewrite uploadProcess_eq.
  destruct (formData request) as [e|fd]; [done|].
  destruct (sanitize_field fd "map") as [(mprops & _ & ->)|(_ & ->)]; [|done].
  destruct (sanitize_field fd "operations") as [(oprops & _ & ->)|(_ & ->)]; [|done].
  simpl completion. cbv iota beta.
  destruct (dispatchAll _ _ _ _ _) as [[tasks|e|r] l1]; [|done..].
  destruct (Promise_all _ _ _ _) as [[operations|e|r] l2]; [|done..].
  unfold executeStage. destruct context as [e|cv]; [done|].
  destruct (executeOperation server _ cv) as [e|body] eqn:Hexec; [done|].
  unfold respond, completion.
  destruct body as [body|]; [|done].
  destruct (String.eqb (kind body) "single") eqn:Hsingle.
  { unfold destructure. by destruct (singleResult body). }
  destruct (String.eqb (kind body) "incremental") eqn:Hincremental.
  { rewrite drain_eq. by destruct (failure (subsequentResults body)). }
  intros _. eexists _, cv, body. split_and!.
  - apply elem_of_app. right. apply list_elem_of_here.
  - exact Hexec.
  - by apply String.eqb_neq.
  - by apply String.eqb_neq.
Qed.
End Stages.

(** ** The worked request, run *)

(** C1 fails when the engine answers with a third kind of body: for a
    request that maps no file and an engine whose body has the kind
    [complete], the [try] block ends without a [return] and [uploadProcess]
    yields no response after having called the engine. *)
Theorem unknown_kind_yields_no_response :
  Demo.run Demo.request_no_upload (Demo.server_of_kind "complete") Demo.settings
  = {| response := None;
       events := [EvExecute Demo.bare_request Demo.contextValue] |}.
Proof. vm_compute. reflexivity. Qed.


Lemma malformed_envelope_fails_fast_witness :
  Demo.run Demo.request_bad_operations (Demo.server_of_kind "single") Demo.settings
  = {| response := Some (JsonError "Error processing upload: Invalid JSON input");
       events := [] |}.
Proof.
  unfold Demo.run.
  eapply (malformed_envelope_fails_fast Demo.JSON_parse); [reflexivity|].
  right. intros props (text & cls & Hget & Hparse).
  vm_compute in Hget. injection Hget as <-. vm_compute in Hparse. discriminate.
Defined.

Lemma oversized_file_aborts_witness :
  let run := Demo.run (Demo.request_with Demo.a_txt)
                      (Demo.server_of_kind "single") Demo.small_settings in
  EvLookup "0" (Some Demo.a_txt) ∈ events run
  /\ (maxFileSize Demo.small_settings < size Demo.a_txt)%Z
  /\ response run
     = Some (JsonError
               "File size is too large. Maximum allowed size is 0.0000095367431640625MB.")
  /\ executions (events run) = []
  /\ dispatched (events run) = [].
Proof.
  intros run.
  assert (Hin : EvLookup "0" (Some Demo.a_txt) ∈ events run).
  { vm_compute. apply list_elem_of_here. }
  assert (Hsize : (maxFileSize Demo.small_settings < size Demo.a_txt)%Z).
  { vm_compute. reflexivity. }
  destruct (oversized_file_aborts Demo.JSON_parse Demo.fileTypeFromBuffer
              Demo.isText Demo.Number_toString Demo.File_inherited
              (Demo.request_with Demo.a_txt) Demo.context
              (Demo.server_of_kind "single") Demo.small_settings [] "0" Demo.a_txt
              Hin Hsize) as (Hresponse & Hexec & _).
  split_and!; [exact Hin | exact Hsize | exact Hresponse | exact Hexec |].
  vm_compute. reflexivity.
Defined.

Lemma missing_file_fails_witness :
  let run := Demo.run Demo.request_without_file
                      (Demo.server_of_kind "single") Demo.settings in
  (exists message, response run = Some (JsonError message))
  /\ executions (events run) = [].
Proof.
  eapply (missing_file_fails Demo.JSON_parse Demo.fileTypeFromBuffer
            Demo.isText Demo.Number_toString Demo.File_inherited Demo.request_without_file
            Demo.context (Demo.server_of_kind "single") Demo.settings []
            _ [("0", JArr [JStr "variables.file"])] "0").
  - reflexivity.
  - exists Demo.map_text, ClassObject. split; reflexivity.
  - apply list_elem_of_here.
  - vm_compute. reflexivity.
Defined.

Lemma invalid_file_properties_rejected_witness :
  let run := Demo.run (Demo.request_with Demo.empty_txt)
                      (Demo.server_of_kind "single") Demo.settings in
  (exists message, response run = Some (JsonError message))
  /\ executions (events run) = [].
Proof.
  eapply (invalid_file_properties_rejected Demo.JSON_parse Demo.fileTypeFromBuffer
            Demo.isText Demo.Number_toString Demo.File_inherited (Demo.request_with Demo.empty_txt)
            Demo.context (Demo.server_of_kind "single") Demo.settings []
            _ [("0", JArr [JStr "variables.file"])] "0" Demo.empty_txt).
  - reflexivity.
  - exists Demo.map_text, ClassObject. split; reflexivity.
  - apply list_elem_of_here.
  - vm_compute. reflexivity.
  - right; left. reflexivity.
Defined.


Lemma response_shaping_witness :
  let run := Demo.run Demo.request_no_upload
                      (Demo.server_of_kind "incremental") Demo.settings in
  EvExecute Demo.bare_request Demo.contextValue ∈ events run
  /\ response run
     = Some (JsonResults [JObj [("data", JNull); ("hasNext", JBool true)];
                          JObj [("hasNext", JBool false)]]).
Proof.
  intros run.
  assert (Hin : EvExecute Demo.bare_request Demo.contextValue ∈ events run).
  { vm_compute. apply list_elem_of_here. }
  destruct (response_shaping Demo.JSON_parse Demo.fileTypeFromBuffer
              Demo.isText Demo.Number_toString Demo.File_inherited Demo.request_no_upload Demo.context
              (Demo.server_of_kind "incremental") Demo.settings []
              Demo.bare_request Demo.contextValue (Demo.body_of_kind "incremental")
              Hin eq_refl) as [_ Hincremental].
  split; [exact Hin|]. by apply Hincremental.
Defined.


(** ** The scenarios of the specification, run *)

Example JArr_owns_its_indices :
  JArr [JStr "variables.file"; JNull]
  = JObject ClassArray [("0", JStr "variables.file"); ("1", JNull)].
Proof. reflexivity. Qed.

(** A text file declared [application/octet-stream] is bound as
    [text/plain] and the engine is called with the variable set. *)
Example text_file_is_bound :
  let run := Demo.run (Demo.request_with Demo.a_txt)
                      (Demo.server_of_kind "single") Demo.settings in
  executions (events run) = [(Demo.bound_request, Demo.contextValue)]
  /\ dispatched (events run) = ["0"]
  /\ response run = Some (JsonData (JObj [("uploadFile", JStr "a.txt")]) JUndefined).
Proof. vm_compute. by split_and!. Qed.

(** The same file with a limit of 10 bytes: the size error, and no call. *)
Example text_file_too_large :
  Demo.run (Demo.request_with Demo.a_txt) (Demo.server_of_kind "single")
           Demo.small_settings
  = {| response :=
         Some (JsonError
                 "File size is too large. Maximum allowed size is 0.0000095367431640625MB.");
       events := [EvLookup "0" (Some Demo.a_txt)] |}.
Proof. vm_compute. reflexivity. Qed.

(** Two parts mapped to one variable: the handle the engine receives is the
    one of the task that completes last. *)
Example colliding_variables_follow_the_schedule :
  let run := fun schedule =>
    uploadProcess Demo.JSON_parse Demo.fileTypeFromBuffer Demo.isText
      Demo.Number_toString Demo.File_inherited Demo.request_colliding Demo.context
      (Demo.server_of_kind "single") Demo.settings schedule in
  let received := fun schedule =>
    (fun call : OperationRequest * JValue => req_variables call.1)
      <$> executions (events (run schedule)) in
  received []
  = [VarsObject ClassObject None
       [("file", SlotUpload (handle Demo.logo_png "image/png"))]]
  /\ received [1%nat]
     = [VarsObject ClassObject None
          [("file", SlotUpload (handle Demo.a_txt "text/plain"))]].
Proof. vm_compute. by split. Qed.

(** * Further properties of the code *)

(** ** [Upload]: a rejection that comes first *)

Lemma Upload_run_rejected (reason : Thrown) (calls : list Upload.call) (u : Upload.t) :
  Upload.promise u = Rejected reason ->
  Upload.promise (Upload.run calls u) = Rejected reason.
Proof.
  revert u. induction calls as [|c calls IH]; intros u Hu; [done|].
  apply IH. destruct c; simpl; by rewrite Hu.
Qed.

(** A pending handle that is rejected stays rejected with that reason
    whatever is called on it later; later calls of [resolve] still set its
    [file] field, so a handle may carry a file and a rejected promise. *)
Theorem Upload_first_rejection_wins
    (reason : Thrown) (u : Upload.t) (calls : list Upload.call) (g : File) :
  Upload.promise u = Pending ->
  Upload.promise (Upload.run calls (Upload.reject reason u)) = Rejected reason
  /\ Upload.file (Upload.reject reason u) = Upload.file u
  /\ Upload.file (Upload.run (calls ++ [Upload.Resolve g]) (Upload.reject reason u))
     = Some g
  /\ Upload.promise (Upload.run (calls ++ [Upload.Resolve g]) (Upload.reject reason u))
     = Rejected reason.
Proof.
  intros Hpending.
  assert (Hrej : Upload.promise (Upload.reject reason u) = Rejected reason).
  { simpl. by rewrite Hpending. }
  split_and!.
  - by apply Upload_run_rejected.
  - done.
  - unfold Upload.run. by rewrite foldl_app.
  - by apply Upload_run_rejected.
Qed.

Lemma Upload_first_rejection_wins_witness :
  let u := Upload.run [Upload.Resolve (descriptor Demo.a_txt "text/plain")]
             (Upload.reject (ThrownError "aborted") Upload.new) in
  Upload.promise u = Rejected (ThrownError "aborted")
  /\ Upload.file u = Some (descriptor Demo.a_txt "text/plain").
Proof.
  destruct (Upload_first_rejection_wins (ThrownError "aborted") Upload.new []
              (descriptor Demo.a_txt "text/plain") eq_refl) as (_ & _ & Hf & Hp).
  split; [exact Hp | exact Hf].
Defined.

(** ** [streamToBuffer]: chunks *)

(** The chunks are kept in the order of arrival: the buffer of a stream
    followed by another is the buffer of the first followed by the buffer of
    the second, wherever the chunks are cut. *)
Theorem streamToBuffer_app (s1 s2 : ReadableStream) :
  streamToBuffer (s1 ++ s2) = streamToBuffer s1 ++ streamToBuffer s2.
Proof. rewrite !streamToBuffer_concat. apply concat_app. Qed.

(** ** [extractFiles] *)












(** [files] for a form with a text field and two files under one name. *)
Example extractFiles_mixed_form :
  extractFiles Cases.mixed_form !! "0" = Some Demo.logo_png
  /\ extractFiles Cases.mixed_form !! "1" = Some Demo.empty_txt
  /\ extractFiles Cases.mixed_form !! "note" = None.
Proof. vm_compute. by split_and!. Qed.

(** ** The removal of the unset variables, as a filter *)

Lemma prop_get_app_fresh {A} (pre rest : list (string * A)) (k : string) :
  k ∉ pre.*1 -> prop_get (pre ++ rest) k = prop_get rest k.
Proof.
  induction pre as [|[k' v'] pre IH]; simpl; [done|]. intros Hnot.
  destruct (String.eqb k' k) eqn:E.
  - apply String.eqb_eq in E as ->. exfalso. apply Hnot, list_elem_of_here.
  - apply IH. intros Hin. by apply Hnot, list_elem_of_further.
Qed.

Lemma prop_delete_fresh {A} (props : list (string * A)) (k : string) :
  k ∉ props.*1 -> prop_delete props k = props.
Proof.
  induction props as [|[k' v'] props IH]; simpl; [done|]. intros Hnot.
  destruct (String.eqb k' k) eqn:E.
  - apply String.eqb_eq in E as ->. exfalso. apply Hnot, list_elem_of_here.
  - rewrite IH; [done|]. intros Hin. by apply Hnot, list_elem_of_further.
Qed.

Lemma prop_delete_app {A} (pre rest : list (string * A)) (k : string) :
  prop_delete (pre ++ rest) k = prop_delete pre k ++ prop_delete rest k.
Proof.
  induction pre as [|[k' v'] pre IH]; simpl; [done|].
  destruct (String.eqb k' k); simpl; by rewrite IH.
Qed.

Lemma removeUnset_filter_from (pre rest : list (string * Slot)) :
  NoDup (pre ++ rest).*1 ->
  foldl deleteIfUnset (pre ++ rest) rest.*1
  = pre ++ List.filter (fun p => slot_truthy p.2) rest.
Proof.
  revert pre. induction rest as [|[k s] rest IH]; intros pre Hnodup.
  { simpl. done. }
  rewrite fmap_app in Hnodup. simpl in Hnodup.
  apply NoDup_app in Hnodup as (Hpre & Hdisjoint & Hrest).
  apply NoDup_cons in Hrest as [Hk Hrest].
  assert (Hfresh : k ∉ pre.*1).
  { intros Hin. apply (Hdisjoint k Hin), list_elem_of_here. }
  simpl. unfold deleteIfUnset at 2.
  rewrite prop_get_app_fresh by done. simpl. rewrite String.eqb_refl. simpl.
  destruct (slot_truthy s) eqn:Hs; simpl.
  - change (pre ++ (k, s) :: rest) with (pre ++ [(k, s)] ++ rest).
    rewrite app_assoc, IH.
    + by rewrite <- app_assoc.
    + rewrite <- app_assoc, fmap_app. simpl. apply NoDup_app. split_and!; [done| |].
      * intros x Hx. by apply Hdisjoint.
      * by apply NoDup_cons.
  - rewrite prop_delete_app, (prop_delete_fresh pre) by done. simpl.
    rewrite String.eqb_refl, (prop_delete_fresh rest) by done.
    apply IH. rewrite fmap_app. apply NoDup_app. split_and!; [done| |done].
    intros x Hx Hin. apply (Hdisjoint x Hx). by apply list_elem_of_further.
Qed.

(** On variables whose keys are distinct, the loop that removes the unset
    variables keeps exactly the entries with a truthy value, in their
    order; the kind and the prototype of the variables are left as they
    are. *)
Theorem removeUnset_filter
    (cls : Class) (proto : option Upload.t) (props : list (string * Slot)) :
  NoDup props.*1 ->
  removeUnset (VarsObject cls proto props)
  = VarsObject cls proto (List.filter (fun p => slot_truthy p.2) props).
Proof.
  intros Hnodup. simpl. f_equal. by apply (removeUnset_filter_from [] props).
Qed.

Lemma removeUnset_filter_witness :
  removeUnset (VarsObject ClassObject None
                 [("count", SlotValue (JNum 0));
                  ("file", SlotUpload (handle Demo.a_txt "text/plain"));
                  ("title", SlotValue (JStr ""));
                  ("tags", SlotValue (JArr []))])
  = VarsObject ClassObject None
      [("file", SlotUpload (handle Demo.a_txt "text/plain"));
       ("tags", SlotValue (JArr []))].
Proof.
  rewrite removeUnset_filter; [reflexivity|].
  apply (bool_decide_unpack _). vm_compute. reflexivity.
Defined.

(** Removing the unset variables twice is the same as removing them once. *)
Theorem removeUnset_idempotent (vars : Variables) :
  removeUnset (removeUnset vars) = removeUnset vars.
Proof.
  destruct vars as [cls proto props|v]; [|done]. simpl. f_equal.
  set (kept := foldl deleteIfUnset props props.*1).
  assert (Htruthy : forall k s, prop_get kept k = Some s -> slot_truthy s = true).
  { intros k s Hget.
    destruct (removeUnset_props props) as (_ & _ & H & _).
    exact (H k s Hget). }
  assert (Hkeep : forall keys, foldl deleteIfUnset kept keys = kept).
  { induction keys as [|key keys IH]; [done|]. simpl.
    replace (deleteIfUnset kept key) with kept; [done|].
    unfold deleteIfUnset.
    destruct (prop_get kept key) as [s|] eqn:Hget; simpl.
    - by rewrite (Htruthy _ _ Hget).
    - clear -Hget. induction kept as [|[k' v'] kept IHk]; simpl in *; [done|].
      destruct (String.eqb k' key); [done|]. by rewrite <- IHk. }
  apply Hkeep.
Qed.

(** ** [processUpload] and the [Upload] scalar *)

Section Coverage.
Variable JSON_parse : string -> option JValue.
Variable fileTypeFromBuffer : list Byte.byte -> option string.
Variable isText : list Byte.byte -> bool.
Variable Number_toString : Q -> string.
Variable File_inherited : string -> Inherited.

Local Abbreviation sanitizeAndValidateJSON := (sanitizeAndValidateJSON JSON_parse).
Local Abbreviation field_parses := (field_parses JSON_parse).
Local Abbreviation envelope := (envelope JSON_parse).
Local Abbreviation effectiveMimeType := (effectiveMimeType fileTypeFromBuffer isText).
Local Abbreviation processUpload_resume := (processUpload_resume fileTypeFromBuffer isText).
Local Abbreviation processUpload := (processUpload fileTypeFromBuffer isText).
Local Abbreviation resumeAll := (resumeAll fileTypeFromBuffer isText).
Local Abbreviation Promise_all := (Promise_all fileTypeFromBuffer isText).
Local Abbreviation bound := (bound fileTypeFromBuffer isText).
Local Abbreviation Files_inherited := (Files_inherited File_inherited).
Local Abbreviation Files_get := (Files_get File_inherited).
Local Abbreviation dispatchAll := (dispatchAll Number_toString File_inherited).
Local Abbreviation sizeError := (sizeError Number_toString).
Local Abbreviation uploadProcess :=
  (uploadProcess JSON_parse fileTypeFromBuffer isText Number_toString File_inherited).

(** [sanitizeAndValidateJSON] returns non-null objects only (arrays among
    them), for a text field that parses to one; every other input makes it
    throw an error whose message is [Invalid JSON input]: neither the
    message of the parser nor [Invalid JSON structure] reaches the caller. *)
Theorem sanitizeAndValidateJSON_outcomes (input : option FormDataEntryValue) :
  (exists text cls props,
      input = Some (EntryText text)
      /\ JSON_parse text = Some (JObject cls props)
      /\ sanitizeAndValidateJSON input = (Normal (JObject cls props), []))
  \/ ((forall text cls props,
          input = Some (EntryText text) ->
          JSON_parse text <> Some (JObject cls props))
      /\ sanitizeAndValidateJSON input
         = (Throw (ThrownError "Invalid JSON input"), [])).
Proof.
  rewrite sanitizeAndValidateJSON_eq.
  destruct input as [[text|f]|]; [|by right..].
  destruct (JSON_parse text) as [v|] eqn:Hparse.
  - destruct v as [| | | | |cls props];
      try (right; split; [intros t c p [= <-]; congruence | done]).
    left. by exists text, cls, props.
  - right. split; [|done]. intros t c p [= <-]. congruence.
Qed.

(** A successful [processUpload] changes the variable it binds and nothing
    else.  The query, the kind of the variables and their own properties of
    any other name are as before.  For a name other than [__proto__], and
    for [__proto__] when the variables own that key, the handle becomes the
    own property of that name, replacing the value it had, and the prototype
    is as before.  For [__proto__] when the variables do not own that key, no
    own property changes and the handle becomes the prototype.  In both
    cases the variable reads as the handle. *)
Theorem processUpload_frame
    (file : FileStream) (variableName : string) (operations operations' : Operations)
    (allowedTypes : list string) (l : list Event) :
  let upload := handle file (effectiveMimeType file (streamToBuffer (stream file))) in
  processUpload file variableName operations allowedTypes = (Normal operations', l) ->
  query operations' = query operations
  /\ (exists cls proto props proto' props',
        variables operations = VarsObject cls proto props
        /\ variables operations' = VarsObject cls proto' props'
        /\ (forall k, k <> variableName -> prop_get props' k = prop_get props k)
        /\ (variableName <> "__proto__" \/ is_Some (prop_get props "__proto__") ->
            proto' = proto
            /\ prop_get props' variableName = Some (SlotUpload upload))
        /\ (variableName = "__proto__" -> prop_get props "__proto__" = None ->
            proto' = Some upload /\ props' = props))
  /\ vars_get (variables operations') variableName = Some (SlotUpload upload)
  /\ l = [EvStream file; EvAssign variableName upload].
Proof.
  intros upload. subst upload.
  unfold processUpload. rewrite processUpload_begin_eq.
  destruct (invalidProperties file); [done|]. simpl.
  destruct (processUpload_resume _ _ _ _) as [c l2] eqn:Hresume.
  intros [= -> <-].
  apply processUpload_resume_Normal in Hresume as (_ & Hset & Hquery & ->).
  split_and!; [done| |by eapply vars_get_set_eq|done].
  by apply vars_set_frame in Hset.
Qed.

(** What a resolver gets for a variable bound by [processUpload]: the
    scalar's [parseValue] returns, without throwing, a promise already
    fulfilled with a descriptor that has the name and the declared size of
    the part and the encoding [binary], and every stream its
    [createReadStream] makes delivers the bytes of the part. *)
Theorem bound_variable_parses_to_descriptor
    (file : FileStream) (variableName : string) (operations operations' : Operations)
    (allowedTypes : list string) (l : list Event) :
  processUpload file variableName operations allowedTypes = (Normal operations', l) ->
  exists slot d,
    vars_get (variables operations') variableName = Some slot
    /\ GraphQLUpload.parseValue slot
       = (Normal (GraphQLUpload.Promise (Fulfilled d)), [])
    /\ fileName d = name file
    /\ fileSize d = size file
    /\ encoding d = "binary"
    /\ includes allowedTypes (mimeType d) = true
    /\ forall u : unit,
        streamToBuffer (createReadStream d u) = streamToBuffer (stream file).
Proof.
  unfold processUpload. rewrite processUpload_begin_eq.
  destruct (invalidProperties file); [done|]. simpl.
  destruct (processUpload_resume _ _ _ _) as [c l2] eqn:Hresume.
  intros [= -> <-].
  apply processUpload_resume_Normal in Hresume as (Hallowed & Hset & _).
  eexists _, _. split; [by eapply vars_get_set_eq|].
  split_and!; try done.
  intros u. simpl. rewrite streamToBuffer_concat. simpl. apply app_nil_r.
Qed.

(** The scalar accepts nothing but handles: for a value that is not an
    [Upload], [parseValue] returns a [GraphQLError] object instead of
    throwing it, and literals and serialization always throw. *)
Lemma GraphQLUpload_rejects_plain_values (v : JValue) (node : JValue) :
  GraphQLUpload.parseValue (SlotValue v)
  = (Normal (GraphQLUpload.Error "Upload value invalid."), [])
  /\ GraphQLUpload.parseLiteral node
     = (Throw (ThrownError "Upload literal unsupported."), [])
  /\ GraphQLUpload.serialize
     = (Throw (ThrownError "Upload serialization unsupported."), []).
Proof. done. Qed.

(** ** [uploadProcess]: what the loop dispatches *)

Lemma running_app tasks tasks' : running (tasks ++ tasks') = running tasks ++ running tasks'.
Proof. induction tasks as [|[e|f v] tasks IH]; simpl; by rewrite ?IH. Qed.

Lemma first_rejection_None_length tasks :
  first_rejection tasks = None -> length (running tasks) = length tasks.
Proof. induction tasks as [|[e|f v] tasks IH]; simpl; [done..|]. intros H. by rewrite IH. Qed.

(** The promise of a call is rejected, or it is the running task of a file
    whose properties passed the validation. *)
Lemma taskOfMember_cases m variableName :
  (exists e, (taskOfMember m variableName).1 = TaskRejected e)
  \/ (exists file : FileStream,
        m = MemberFile file
        /\ invalidProperties file = false
        /\ (taskOfMember m variableName).1 = TaskRunning file variableName).
Proof.
  destruct m as [file| |]; simpl; [|by eauto..].
  unfold taskOf. destruct (invalidProperties file) eqn:E; simpl; by eauto.
Qed.

Lemma taskOfMember_running m variableName (f : FileStream) v :
  (f, v) ∈ running [(taskOfMember m variableName).1] ->
  m = MemberFile f /\ v = variableName /\ invalidProperties f = false.
Proof.
  destruct (taskOfMember_cases m variableName) as [[e ->]|(file & -> & Hvalid & ->)];
    simpl.
  - intros Hin. by apply elem_of_nil in Hin.
  - by intros [= -> ->]%list_elem_of_singleton.
Qed.

(** The promises collected so far stay in front of those collected later. *)
Lemma dispatchAll_prefix (files : Files) map settings keys acc tasks l :
  dispatchAll files map settings keys acc = (Normal tasks, l) ->
  exists more, tasks = acc ++ more.
Proof.
  revert acc l. induction keys as [|k keys IH]; intros acc l H.
  { injection H as <- <-. exists []. by rewrite app_nil_r. }
  apply dispatchAll_step in H
    as [(_ & _ & [e [=]] & _)|[(f & _ & _ & [=] & _)|[(m & e & _ & _ & _ & _ & [=] & _)
        |(m & v & l' & _ & _ & _ & _ & Hrec & _)]]].
  apply IH in Hrec as [more ->]. eexists. by rewrite <- app_assoc.
Qed.

(** When the loop completes, it has dispatched one task per field name of
    the map, in order; every task still running is that of an uploaded file
    within the size limit whose properties passed the validation. *)
Lemma dispatchAll_Normal (files : Files) map settings keys acc tasks l :
  dispatchAll files map settings keys acc = (Normal tasks, l) ->
  dispatched l = keys
  /\ length tasks = (length acc + length keys)%nat
  /\ (forall (f : FileStream) v, (f, v) ∈ running tasks ->
        (f, v) ∈ running acc
        \/ exists fileKey, fileKey ∈ keys
             /\ files !! fileKey = Some f
             /\ (size f <= maxFileSize settings)%Z
             /\ invalidProperties f = false
             /\ variableNameOf map fileKey = (Normal v, []))
  /\ (forall fileKey, fileKey ∈ keys ->
        exists (m : Member) v,
          Member_file m = files !! fileKey
          /\ variableNameOf map fileKey = (Normal v, [])
          /\ (taskOfMember m v).1 ∈ tasks).
Proof.
  revert acc l. induction keys as [|k keys IH]; intros acc l H.
  { injection H as <- <-. split_and!; [done|simpl; lia|by left|].
    intros k Hin. by apply elem_of_nil in Hin. }
  apply dispatchAll_step in H
    as [(_ & _ & [e [=]] & _)|[(f & _ & _ & [=] & _)|[(m & e & _ & _ & _ & _ & [=] & _)
        |(m & v & l' & Hget & _ & Hle & Hv & Hrec & ->)]]].
  apply Files_get_Normal in Hget as [_ Hm].
  pose proof Hrec as Hsame.
  apply IH in Hrec as (Hd & Hlen & Hrun & Hkey).
  split_and!.
  - simpl. rewrite dispatched_app, Hd.
    by destruct (taskOfMember_events m v) as [-> |(f & _ & _ & ->)].
  - rewrite Hlen, length_app. simpl. lia.
  - intros f' v' Hin. destruct (Hrun f' v' Hin) as [Hacc|(k' & Hk' & Hrest)].
    + rewrite running_app in Hacc. apply elem_of_app in Hacc as [Hacc|Hnew]; [by left|].
      apply taskOfMember_running in Hnew as (-> & -> & Hvalid).
      right. exists k. split; [apply list_elem_of_here|].
      split_and!; [done|by apply Hle|done..].
    + right. exists k'. split; [by apply list_elem_of_further|done].
  - intros k' [->|Hin]%elem_of_cons.
    + exists m, v. split_and!; [done..|].
      apply dispatchAll_prefix in Hsame as [more ->]. apply elem_of_app. left.
      apply elem_of_app. right. apply list_elem_of_here.
    + by apply Hkey.
Qed.

(** Whatever its outcome, the loop looks up field names of the map only,
    and opens the stream of a file only if that file was uploaded under such
    a name, is within the size limit and has valid properties. *)
Lemma dispatchAll_trace (files : Files) map settings keys acc c l :
  dispatchAll files map settings keys acc = (c, l) ->
  (forall fileKey file, EvLookup fileKey file ∈ l ->
      fileKey ∈ keys /\ file = files !! fileKey)
  /\ (forall file, EvStream file ∈ l ->
        exists fileKey, fileKey ∈ keys
          /\ files !! fileKey = Some file
          /\ (size file <= maxFileSize settings)%Z
          /\ invalidProperties file = false).
Proof.
  revert acc c l. induction keys as [|k keys IH]; intros acc c l H.
  { injection H as <- <-. split; intros ? **; by match goal with
      | Hin : _ ∈ [] |- _ => apply elem_of_nil in Hin end. }
  assert (Hone : forall file : option FileStream, file = files !! k ->
            (forall fileKey file', EvLookup fileKey file' ∈ [EvLookup k file] ->
                fileKey ∈ k :: keys /\ file' = files !! fileKey)
            /\ (forall file', EvStream file' ∈ [EvLookup k file] ->
                  exists fileKey, fileKey ∈ k :: keys
                    /\ files !! fileKey = Some file'
                    /\ (size file' <= maxFileSize settings)%Z
                    /\ invalidProperties file' = false)).
  { intros file Hfile. split.
    - intros k' fo [= -> ->]%list_elem_of_singleton.
      split; [apply list_elem_of_here|done].
    - by intros f' [=]%list_elem_of_singleton. }
  apply dispatchAll_step in H
    as [(Hf & _ & _ & [->| ->])|[(f & Hf & _ & _ & ->)|[(m & e & Hget & _ & _ & _ & _ & ->)
        |(m & v & l' & Hget & _ & Hle & Hv & Hrec & ->)]]].
  - split; intros ? **; by match goal with
      | Hin : _ ∈ [] |- _ => apply elem_of_nil in Hin end.
  - by apply Hone.
  - by apply Hone.
  - apply Files_get_Normal in Hget as [_ Hm]. by apply Hone.
  - apply Files_get_Normal in Hget as [_ Hm].
    apply IH in Hrec as [Hlook Hstream]. split.
    + intros k' fo [[= -> ->]|Hin]%elem_of_cons.
      { split; [apply list_elem_of_here|done]. }
      apply elem_of_cons in Hin as [[=]|Hin].
      apply elem_of_app in Hin as [Hin|Hin].
      { destruct (taskOfMember_events m v) as [E|(f & _ & _ & E)]; rewrite E in Hin.
        - by apply elem_of_nil in Hin.
        - by apply list_elem_of_singleton in Hin. }
      destruct (Hlook _ _ Hin). split; [by apply list_elem_of_further|done].
    + intros f' [[=]|Hin]%elem_of_cons.
      apply elem_of_cons in Hin as [[=]|Hin].
      apply elem_of_app in Hin as [Hin|Hin].
      { destruct (taskOfMember_events m v) as [E|(f & -> & Hvalid & E)];
          rewrite E in Hin.
        - by apply elem_of_nil in Hin.
        - apply list_elem_of_singleton in Hin as [= ->].
          exists k. split; [apply list_elem_of_here|].
          split_and!; [done|by apply Hle|done]. }
      destruct (Hstream _ Hin) as (k' & Hk' & Hrest).
      exists k'. split; [by apply list_elem_of_further|done].
Qed.

(** A field whose path cannot be used stops the loop. *)
Lemma dispatchAll_bad_path (files : Files) map settings keys acc c l fileKey e :
  dispatchAll files map settings keys acc = (c, l) ->
  fileKey ∈ keys -> variableNameOf map fileKey = (Throw e, []) ->
  forall tasks, c <> Normal tasks.
Proof.
  revert acc c l. induction keys as [|k keys IH]; intros acc c l H Hin Hbad.
  { by apply elem_of_nil in Hin. }
  apply dispatchAll_step in H
    as [(_ & _ & [e' ->] & _)|[(f & _ & _ & -> & _)|[(m & e' & _ & _ & _ & _ & -> & _)
        |(m & v & l' & _ & _ & _ & Hv & Hrec & _)]]]; [done..|].
  apply elem_of_cons in Hin as [->|Hin]; [congruence|]. by eapply IH.
Qed.

(** The join completes only if every resumed task has an allowed type, and,
    unless there is no task, only if the variables are an object. *)
Lemma resumeAll_Normal_inv order operations allowedTypes operations' l :
  resumeAll order operations allowedTypes = (Normal operations', l) ->
  Forall (fun t : FileStream * string =>
            includes allowedTypes
              (effectiveMimeType t.1 (streamToBuffer (stream t.1))) = true) order
  /\ (order = []
      \/ exists cls proto props, variables operations = VarsObject cls proto props).
Proof.
  revert operations l. induction order as [|[file v] order IH]; intros operations l H.
  { split; [constructor|by left]. }
  simpl in H.
  destruct (processUpload_resume file v operations allowedTypes)
    as [[operations1|e|r] l1] eqn:Hr; [|done..].
  apply processUpload_resume_Normal in Hr as (Hallowed & Hset & _ & ->).
  simpl in H. destruct (resumeAll order _ _) as [c' l'] eqn:Hrec.
  injection H as -> _. apply IH in Hrec as [Hall _].
  split; [by constructor|]. right.
  apply vars_set_Normal_inv in Hset as (cls & proto & props & _ & _ & Hvars & _).
  by exists cls, proto, props.
Qed.

Lemma first_rejection_elem tasks e :
  TaskRejected e ∈ tasks -> is_Some (first_rejection tasks).
Proof.
  induction tasks as [|[e'|f v] tasks IH]; simpl.
  - intros Hin. by apply elem_of_nil in Hin.
  - done.
  - intros [[=]|Hin]%elem_of_cons. by apply IH.
Qed.

Lemma running_elem tasks f v : TaskRunning f v ∈ tasks -> (f, v) ∈ running tasks.
Proof.
  induction tasks as [|[e'|f' v'] tasks IH]; simpl.
  - intros Hin. by apply elem_of_nil in Hin.
  - intros [[=]|Hin]%elem_of_cons. by apply IH.
  - intros [[= -> ->]|Hin]%elem_of_cons; [apply list_elem_of_here|].
    apply list_elem_of_further. by apply IH.
Qed.

(** A request whose binding cannot complete is answered by an error
    response, and the engine is not called. *)
Lemma uploadProcess_fails_unless request context server settings schedule fd mprops :
  formData request = inr fd ->
  field_parses fd "map" mprops ->
  (forall oprops tasks l1 operations l2,
      field_parses fd "operations" oprops ->
      dispatchAll (extractFiles fd) (JObj mprops) settings mprops.*1 [] = (Normal tasks, l1) ->
      Promise_all schedule tasks (toOperations (JObj oprops)) (allowedTypes settings)
      = (Normal operations, l2) ->
      False) ->
  (exists message,
      response (uploadProcess request context server settings schedule)
      = Some (JsonError message))
  /\ executions (events (uploadProcess request context server settings schedule)) = [].
Proof.
  intros Hfd Hmap Hnever. rewrite uploadProcess_eq, Hfd.
  rewrite (sanitize_parses _ _ _ _ Hmap).
  destruct (sanitize_field JSON_parse fd "operations")
    as [(oprops & Ho & ->)|(_ & ->)]; simpl; [|by eauto].
  destruct (dispatchAll _ _ _ _ _) as [c l1] eqn:Hdispatch.
  pose proof (dispatchAll_kinds _ _ _ _ _ _ _ _ _ Hdispatch) as [_ Hexec].
  destruct c as [tasks|e|r]; simpl.
  - destruct (Promise_all _ _ _ _) as [c2 l2] eqn:Hjoin.
    pose proof Hjoin as [Hl2 Hnoreturn]%Promise_all_events.
    apply only_assignments in Hl2 as (_ & Hexec2 & _).
    destruct c2 as [operations|e|r]; simpl.
    + exfalso. by eapply Hnever.
    + rewrite executions_app, Hexec, Hexec2. unfold failureResponse. eauto.
    + by edestruct Hnoreturn.
  - unfold failureResponse. eauto.
  - apply dispatchAll_return in Hdispatch as ->. unfold sizeError. eauto.
Qed.

(** ** [uploadProcess]: requests that fail during binding *)

(** A mapped file whose effective type is not in [allowedTypes] fails the
    whole request: [processUpload] opens its stream and then throws an error
    naming the type and the allowed types, having bound nothing; the answer
    is an error response and the engine is not called. *)
Theorem disallowed_type_fails
    request context server settings schedule fd mprops fileKey (file : FileStream) :
  let run := uploadProcess request context server settings schedule in
  let mime := effectiveMimeType file (streamToBuffer (stream file)) in
  formData request = inr fd ->
  field_parses fd "map" mprops ->
  fileKey ∈ mprops.*1 ->
  extractFiles fd !! fileKey = Some file ->
  includes (allowedTypes settings) mime = false ->
  (invalidProperties file = false ->
   forall variableName operations,
     processUpload file variableName operations (allowedTypes settings)
     = (Throw (ThrownError ("File type " ++ mime ++ " is not allowed. Allowed types: "
                            ++ join ", " (allowedTypes settings))),
        [EvStream file]))
  /\ (exists message, response run = Some (JsonError message))
  /\ executions (events run) = [].
Proof.
  intros run mime Hfd Hmap Hin Hfile Hdisallowed. subst run. split.
  { intros Hvalid v operations. unfold processUpload.
    rewrite processUpload_begin_eq, Hvalid, processUpload_resume_eq. simpl.
    fold mime. by rewrite Hdisallowed. }
  apply (uploadProcess_fails_unless _ _ _ _ _ _ _ Hfd Hmap).
  intros oprops tasks l1 operations l2 _ Hdispatch Hjoin.
  apply dispatchAll_Normal in Hdispatch as (_ & _ & _ & Hkey).
  destruct (Hkey fileKey Hin) as (m & v & Hm & _ & Htask).
  unfold Promise_all in Hjoin.
  destruct (first_rejection tasks) as [e|] eqn:Hrej; [done|].
  apply resumeAll_Normal_inv in Hjoin as [Hallowed _].
  destruct (taskOfMember_cases m v) as [[e He]|(f & -> & _ & Hrunning)].
  - rewrite He in Htask. apply first_rejection_elem in Htask as [e' He']. congruence.
  - assert (f = file) as -> by (simpl in Hm; congruence).
    rewrite Hrunning in Htask. apply running_elem in Htask.
    rewrite <- (completion_order_Permutation schedule) in Htask.
    eapply Forall_forall in Hallowed; [|exact Htask]. simpl in Hallowed.
    fold mime in Hallowed. congruence.
Qed.

(** Operations that carry no [variables] (or [null]) cannot receive an
    upload: as soon as the map names one field, the request is answered by an
    error response and the engine is not called. *)
Theorem upload_without_variables_fails
    request context server settings schedule fd mprops oprops :
  let run := uploadProcess request context server settings schedule in
  formData request = inr fd ->
  field_parses fd "map" mprops ->
  field_parses fd "operations" oprops ->
  mprops <> [] ->
  prop_get oprops "variables" = None \/ prop_get oprops "variables" = Some JNull ->
  (exists message, response run = Some (JsonError message))
  /\ executions (events run) = [].
Proof.
  intros run Hfd Hmap Hops Hsome Hvars. subst run.
  apply (uploadProcess_fails_unless _ _ _ _ _ _ _ Hfd Hmap).
  intros oprops' tasks l1 operations l2 Hops' Hdispatch Hjoin.
  assert (oprops' = oprops) as -> by by eapply field_parses_inj.
  destruct mprops as [|[fileKey paths] mprops]; [done|].
  apply dispatchAll_Normal in Hdispatch as (_ & _ & _ & Hkey).
  destruct (Hkey fileKey) as (m & v & _ & _ & Htask); [apply list_elem_of_here|].
  unfold Promise_all in Hjoin.
  destruct (first_rejection tasks) as [e|] eqn:Hrej; [done|].
  apply resumeAll_Normal_inv in Hjoin as [_ Hobject].
  destruct (taskOfMember_cases m v) as [[e He]|(f & -> & _ & Hrunning)].
  - rewrite He in Htask. apply first_rejection_elem in Htask as [e' He']. congruence.
  - rewrite Hrunning in Htask. apply running_elem in Htask.
    rewrite <- (completion_order_Permutation schedule) in Htask.
    destruct Hobject as [Hnil|(cls & proto & props & Hprops)].
    + rewrite Hnil in Htask. by apply elem_of_nil in Htask.
    + unfold toOperations, member in Hprops. cbn [variables] in Hprops.
      destruct Hvars as [H|H]; by rewrite H in Hprops.
Qed.

(** A map entry whose first path is not a string (an empty list of paths,
    a number, a nested list) fails the request: the answer is an error
    response and the engine is not called. *)
Theorem unusable_path_fails
    request context server settings schedule fd mprops fileKey cls paths :
  let run := uploadProcess request context server settings schedule in
  formData request = inr fd ->
  field_parses fd "map" mprops ->
  prop_get mprops fileKey = Some (JObject cls paths) ->
  (forall path, prop_get paths "0" <> Some (JStr path)) ->
  (exists message, response run = Some (JsonError message))
  /\ executions (events run) = [].
Proof.
  intros run Hfd Hmap Hentry Hnopath. subst run.
  apply (uploadProcess_fails_unless _ _ _ _ _ _ _ Hfd Hmap).
  intros oprops tasks l1 operations l2 _ Hdispatch _.
  assert (Hbad : exists e, variableNameOf (JObj mprops) fileKey = (Throw e, [])).
  { unfold variableNameOf. simpl. rewrite Hentry. simpl.
    destruct (prop_get paths "0") as [[| | | |path|]|]; simpl; eauto.
    by edestruct Hnopath. }
  destruct Hbad as [e Hbad].
  eapply dispatchAll_bad_path; [exact Hdispatch| |exact Hbad|done].
  by eapply prop_get_Some_key.
Qed.

(** ** [uploadProcess]: the context and the engine *)

(** A context that rejects is caught like any other failure: the engine is
    not called and the answer is an error response. *)
Theorem rejected_context_never_executes
    request server settings schedule (e : Thrown) :
  let run := uploadProcess request (inl e) server settings schedule in
  executions (events run) = []
  /\ exists message, response run = Some (JsonError message).
Proof.
  intros run. subst run. rewrite uploadProcess_eq.
  destruct (formData request) as [e'|fd]; [by unfold failed, failureResponse; eauto|].
  destruct (sanitize_field JSON_parse fd "map") as [(mprops & _ & ->)|(_ & ->)];
    [|by unfold failed, failureResponse; eauto].
  destruct (sanitize_field JSON_parse fd "operations") as [(oprops & _ & ->)|(_ & ->)];
    [|by unfold failed, failureResponse; eauto].
  simpl completion. cbv iota beta.
  destruct (dispatchAll _ _ _ _ _) as [c l1] eqn:Hdispatch.
  pose proof (dispatchAll_kinds _ _ _ _ _ _ _ _ _ Hdispatch) as [_ Hexec].
  destruct c as [tasks|e'|r]; simpl.
  - destruct (Promise_all _ _ _ _) as [c2 l2] eqn:Hjoin.
    pose proof Hjoin as [Hl2 Hnoreturn]%Promise_all_events.
    apply only_assignments in Hl2 as (_ & Hexec2 & _).
    destruct c2 as [operations|e'|r]; simpl.
    + rewrite executions_app, Hexec, Hexec2. unfold failureResponse. eauto.
    + rewrite executions_app, Hexec, Hexec2. unfold failureResponse. eauto.
    + by edestruct Hnoreturn.
  - unfold failureResponse. eauto.
  - apply dispatchAll_return in Hdispatch as ->. unfold sizeError. eauto.
Qed.

(** When the engine rejects, the answer is the error response carrying the
    message of the error ([Unknown error] if what was thrown is not an
    [Error]). *)
Theorem engine_rejection_is_answered
    request context server settings schedule rq cv (e : Thrown) :
  let run := uploadProcess request context server settings schedule in
  EvExecute rq cv ∈ events run ->
  executeOperation server rq cv = ExecutionRejects e ->
  response run
  = Some (JsonError ("Error processing upload: "
                     ++ match e with
                        | ThrownError message => message
                        | ThrownValue _ => "Unknown error"
                        end)).
Proof.
  intros run Hin Hexec. subst run.
  apply uploadProcess_executes in Hin
    as (fd & mprops & oprops & tasks & l1 & operations & l2
        & _ & _ & _ & _ & _ & -> & -> & -> & _).
  unfold executeStage. rewrite Hexec. by destruct e.
Qed.

(** When the sequence of subsequent results throws before its end, the
    results collected so far are dropped and the answer is the error
    response of what was thrown. *)
Theorem broken_incremental_stream_is_answered
    request context server settings schedule rq cv body (e : Thrown) :
  let run := uploadProcess request context server settings schedule in
  EvExecute rq cv ∈ events run ->
  executeOperation server rq cv = ExecutionResponse (Some body) ->
  kind body = "incremental" ->
  failure (subsequentResults body) = Some e ->
  response run = Some (JsonError ("Error processing upload: " ++ errorMessage e)).
Proof.
  intros run Hin Hexec Hkind Hfail. subst run.
  apply uploadProcess_executes in Hin
    as (fd & mprops & oprops & tasks & l1 & operations & l2
        & _ & _ & _ & _ & _ & -> & -> & -> & _).
  unfold executeStage. rewrite Hexec. unfold respond, completion.
  rewrite Hkind. simpl. by rewrite drain_eq, Hfail.
Qed.

(** The engine is called at most once in a run. *)
Theorem engine_called_at_most_once request context server settings schedule :
  (length (executions (events (uploadProcess request context server settings schedule)))
   <= 1)%nat.
Proof.
  rewrite uploadProcess_eq.
  destruct (formData request) as [e'|fd]; [simpl; lia|].
  destruct (sanitize_field JSON_parse fd "map") as [(mprops & _ & ->)|(_ & ->)];
    [|simpl; lia].
  destruct (sanitize_field JSON_parse fd "operations") as [(oprops & _ & ->)|(_ & ->)];
    [|simpl; lia].
  simpl completion. cbv iota beta.
  destruct (dispatchAll _ _ _ _ _) as [c l1] eqn:Hdispatch.
  pose proof (dispatchAll_kinds _ _ _ _ _ _ _ _ _ Hdispatch) as [_ Hexec].
  destruct c as [tasks|e'|r]; simpl; [|rewrite Hexec; simpl; lia..].
  destruct (Promise_all _ _ _ _) as [c2 l2] eqn:Hjoin.
  pose proof Hjoin as [Hl2 _]%Promise_all_events.
  apply only_assignments in Hl2 as (_ & Hexec2 & _).
  destruct c2 as [operations|e'|r]; simpl;
    [|rewrite executions_app, Hexec, Hexec2; simpl; lia..].
  destruct (executeStage_events server context operations (l1 ++ l2))
    as (tail & -> & [->|(rq & cv & ->)]);
    rewrite !executions_app, Hexec, Hexec2; simpl; lia.
Qed.

(** The engine is called only when every field of the map has been bound:
    a task was dispatched for each field name, in the order of the map, and
    each of them has made its assignment. *)
Theorem execution_means_all_bound
    request context server settings schedule rq cv :
  let run := uploadProcess request context server settings schedule in
  EvExecute rq cv ∈ events run ->
  exists fd mprops,
    formData request = inr fd
    /\ field_parses fd "map" mprops
    /\ dispatched (events run) = mprops.*1
    /\ length (assignments (events run)) = length mprops.
Proof.
  intros run Hin. subst run.
  apply uploadProcess_executes in Hin
    as (fd & mprops & oprops & tasks & l1 & operations & l2
        & Hfd & Hmap & _ & Hdispatch & Hjoin & _ & _ & _ & ->).
  exists fd, mprops. split_and!; [done..| |].
  - pose proof Hjoin as [Hl2 _]%Promise_all_events.
    apply only_assignments in Hl2 as (Hd2 & _ & _).
    apply dispatchAll_Normal in Hdispatch as (Hd1 & _).
    rewrite !dispatched_app, Hd1, Hd2. simpl. by rewrite !app_nil_r.
  - pose proof (dispatchAll_kinds _ _ _ _ _ _ _ _ _ Hdispatch) as [Ha1 _].
    apply dispatchAll_Normal in Hdispatch as (_ & Hlen & _).
    unfold Promise_all in Hjoin.
    destruct (first_rejection tasks) as [e|] eqn:Hrej; [done|].
    apply resumeAll_Normal in Hjoin as (Ha2 & _).
    rewrite !assignments_app, Ha1, Ha2. simpl. rewrite app_nil_r, length_fmap.
    rewrite (completion_order_Permutation schedule).
    rewrite first_rejection_None_length by done.
    rewrite Hlen, length_fmap. done.
Qed.

(** ** [uploadProcess]: what reaches the engine *)

Lemma toVariables_values (v : JValue) (k : string) (slot : Slot) :
  vars_get (toVariables v) k = Some slot -> exists j, slot = SlotValue j.
Proof.
  destruct v as [| | | | |cls props]; simpl; try done.
  destruct (prop_get (prod_map id SlotValue <$> props) k) as [s|] eqn:Hget.
  - intros [= <-]. clear -Hget.
    induction props as [|[k' j] props IH]; simpl in *; [done|].
    destruct (String.eqb k' k); [|by auto]. injection Hget as <-. by exists j.
  - by destruct (String.eqb k "__proto__").
Qed.

Lemma foldl_assign_upload (vars : Variables) (l : list (string * Upload.t)) k u :
  vars_get (foldl assign vars l) k = Some (SlotUpload u) ->
  vars_get vars k = Some (SlotUpload u) \/ (k, u) ∈ l.
Proof.
  induction l as [|[v' u'] l IH] using rev_ind; [by left|].
  rewrite foldl_app. simpl. unfold assign at 1. simpl.
  assert (Hold : vars_get (foldl assign vars l) k = Some (SlotUpload u) ->
                 vars_get vars k = Some (SlotUpload u) \/ (k, u) ∈ l ++ [(v', u')]).
  { intros [H|H]%IH; [by left|]. right. apply elem_of_app. by left. }
  destruct (vars_set_cases (foldl assign vars l) v' u') as [[vars' Hset]|[e Hset]];
    rewrite Hset; simpl; [|done].
  destruct (decide (v' = k)) as [->|Hne].
  - rewrite (vars_get_set_eq _ _ _ _ _ Hset). intros [= ->]. right.
    apply elem_of_app. right. apply list_elem_of_here.
  - by rewrite (vars_get_set_ne _ _ _ _ _ _ Hset Hne).
Qed.

(** Every [Upload] among the variables the engine receives was bound by
    this run for a field of the map: it is the handle of the file uploaded
    under that field name, that file is within the size limit, its effective
    type is allowed, its name, declared size and declared type are not
    empty, and the key is the variable name derived from the field's path.
    Its promise is already fulfilled when the scalar parses it. *)
Theorem engine_receives_only_checked_uploads
    request context server settings schedule rq cv k (u : Upload.t) :
  let run := uploadProcess request context server settings schedule in
  EvExecute rq cv ∈ events run ->
  vars_get (req_variables rq) k = Some (SlotUpload u) ->
  exists fd mprops fileKey (file : FileStream),
    let mime := effectiveMimeType file (streamToBuffer (stream file)) in
    formData request = inr fd
    /\ field_parses fd "map" mprops
    /\ fileKey ∈ mprops.*1
    /\ extractFiles fd !! fileKey = Some file
    /\ variableNameOf (JObj mprops) fileKey = (Normal k, [])
    /\ u = handle file mime
    /\ (size file <= maxFileSize settings)%Z
    /\ includes (allowedTypes settings) mime = true
    /\ invalidProperties file = false
    /\ GraphQLUpload.parseValue (SlotUpload u)
       = (Normal (GraphQLUpload.Promise (Fulfilled (descriptor file mime))), []).
Proof.
  intros run Hin Hget. subst run.
  apply uploadProcess_executes in Hin
    as (fd & mprops & oprops & tasks & l1 & operations & l2
        & Hfd & Hmap & _ & Hdispatch & Hjoin & _ & -> & _ & _).
  simpl in Hget.
  unfold Promise_all in Hjoin.
  destruct (first_rejection tasks) as [e|] eqn:Hrej; [done|].
  pose proof Hjoin as [Hallowed _]%resumeAll_Normal_inv.
  apply resumeAll_Normal in Hjoin as (Ha2 & _ & Hsettled).
  assert (Hbefore : vars_get (variables operations) k = Some (SlotUpload u)).
  { apply removeUnset_get; [|done].
    rewrite Hsettled. apply foldl_assign_own_proto, toVariables_own_proto. }
  rewrite Hsettled, Ha2 in Hbefore.
  apply foldl_assign_upload in Hbefore as [Hinit|Hassigned].
  { apply toVariables_values in Hinit as [j [=]]. }
  apply list_elem_of_fmap_1 in Hassigned as ([file v] & [= -> ->] & Htask).
  eapply Forall_forall in Hallowed; [|exact Htask]. simpl in Hallowed.
  rewrite (completion_order_Permutation schedule) in Htask.
  apply dispatchAll_Normal in Hdispatch as (_ & _ & Hrun & _).
  destruct (Hrun _ _ Htask) as [Hacc|(fileKey & Hkey & Hfile & Hsize & Hvalid & Hname)].
  { by apply elem_of_nil in Hacc. }
  exists fd, mprops, fileKey, file. simpl. split_and!; done.
Qed.

(** A stream is opened only for a file uploaded under a field name of the
    map, within the size limit and with valid properties: parts the map does
    not name, oversized files and files that fail the validation are never
    read into a buffer. *)
Theorem only_checked_mapped_files_are_read
    request context server settings schedule (file : FileStream) :
  let run := uploadProcess request context server settings schedule in
  EvStream file ∈ events run ->
  exists fd mprops fileKey,
    formData request = inr fd
    /\ field_parses fd "map" mprops
    /\ fileKey ∈ mprops.*1
    /\ extractFiles fd !! fileKey = Some file
    /\ (size file <= maxFileSize settings)%Z
    /\ invalidProperties file = false.
Proof.
  intros run. subst run. rewrite uploadProcess_eq.
  destruct (formData request) as [e'|fd]; simpl.
  { intros Hin. by apply elem_of_nil in Hin. }
  destruct (sanitize_field JSON_parse fd "map") as [(mprops & Hmap & ->)|(_ & ->)];
    simpl; [|intros Hin; by apply elem_of_nil in Hin].
  destruct (sanitize_field JSON_parse fd "operations") as [(oprops & _ & ->)|(_ & ->)];
    simpl; [|intros Hin; by apply elem_of_nil in Hin].
  destruct (dispatchAll _ _ _ _ _) as [c l1] eqn:Hdispatch.
  pose proof (dispatchAll_trace _ _ _ _ _ _ _ Hdispatch) as [_ Hstream].
  assert (Hfound : EvStream file ∈ l1 ->
            exists fd0 mprops0 fileKey,
              (inr fd : Thrown + FormData) = inr fd0 /\ field_parses fd0 "map" mprops0
              /\ fileKey ∈ mprops0.*1 /\ extractFiles fd0 !! fileKey = Some file
              /\ (size file <= maxFileSize settings)%Z
              /\ invalidProperties file = false).
  { intros (fileKey & Hkey & Hrest)%Hstream. by exists fd, mprops, fileKey. }
  assert (Hassign : forall l2,
            Forall (fun ev => exists v u, ev = EvAssign v u) l2 -> EvStream file ∉ l2).
  { intros l2 Hall Hin. eapply Forall_forall in Hall; [|exact Hin].
    by destruct Hall as (v & u & [=]). }
  destruct c as [tasks|e'|r]; simpl; [|done..].
  destruct (Promise_all _ _ _ _) as [c2 l2] eqn:Hjoin.
  apply Promise_all_events in Hjoin as [Hl2 _].
  destruct c2 as [operations|e'|r]; simpl.
  - destruct (executeStage_events server context operations (l1 ++ l2))
      as (tail & -> & Htail).
    intros [[Hin|Hin]%elem_of_app|Hin]%elem_of_app; [by apply Hfound| |].
    + by apply Hassign in Hin.
    + destruct Htail as [->|(rq & cv & ->)].
      * by apply elem_of_nil in Hin.
      * by apply list_elem_of_singleton in Hin.
  - intros [Hin|Hin]%elem_of_app; [by apply Hfound|by apply Hassign in Hin].
  - intros [Hin|Hin]%elem_of_app; [by apply Hfound|by apply Hassign in Hin].
Qed.

Lemma dispatchAll_return_oversized (files : Files) map settings keys acc r l :
  dispatchAll files map settings keys acc = (Return r, l) ->
  exists fileKey (file : FileStream),
    EvLookup fileKey (Some file) ∈ l /\ (maxFileSize settings < size file)%Z.
Proof.
  revert acc l. induction keys as [|k keys IH]; intros acc l H; [done|].
  apply dispatchAll_step in H
    as [(_ & _ & [e [=]] & _)|[(f & _ & Hsize & _ & ->)|[(m & e & _ & _ & _ & _ & [=] & _)
        |(m & v & l' & _ & _ & _ & _ & Hrec & ->)]]].
  - exists k, f. split; [apply list_elem_of_here|done].
  - apply IH in Hrec as (k' & f' & Hin & Hsize). exists k', f'. split; [|done].
    do 2 apply list_elem_of_further. apply elem_of_app. by right.
Qed.

(** What the [try] block returns early is the size error of the loop, after
    the lookup of an oversized file, or one of the two responses made from
    the result of the engine. *)
Lemma uploadProcess_try_Return request context server settings schedule r l :
  uploadProcess_try JSON_parse fileTypeFromBuffer isText Number_toString
    File_inherited request context server settings schedule = (Return r, l) ->
  (r = sizeError settings
   /\ exists fileKey (file : FileStream),
        EvLookup fileKey (Some file) ∈ l /\ (maxFileSize settings < size file)%Z)
  \/ (exists data errors, r = JsonData data errors)
  \/ (exists results, r = JsonResults results).
Proof.
  unfold uploadProcess_try.
  destruct (formData request) as [e|fd]; [done|]. simpl.
  destruct (envelope fd "map") as [mprops|] eqn:Hm;
    [|by rewrite (envelope_None _ _ _ Hm)].
  destruct (envelope_Some _ _ _ _ Hm) as [mcls ->].
  destruct (envelope fd "operations") as [oprops|] eqn:Ho;
    [|by rewrite (envelope_None _ _ _ Ho)].
  destruct (envelope_Some _ _ _ _ Ho) as [ocls ->].
  simpl.
  destruct (dispatchAll _ _ _ _ _) as [[tasks|e|r1] l1] eqn:Hdispatch; simpl;
    [|done|].
  - destruct (Promise_all _ _ _ _) as [[operations|e|r2] l2] eqn:Hjoin; simpl;
      [|done|by apply Promise_all_events in Hjoin as [_ Hno]; edestruct Hno].
    destruct context as [e|cv]; [done|]. simpl.
    destruct (executeOperation server _ cv) as [e|body]; [done|]. simpl.
    destruct body as [body|]; [|done]. simpl.
    destruct (String.eqb (kind body) "single").
    { unfold destructure.
      destruct (singleResult body); simpl; try done;
        intros [= <- _]; right; left; by eexists _, _. }
    destruct (String.eqb (kind body) "incremental"); [|done].
    rewrite drain_eq. destruct (failure (subsequentResults body)); simpl; [done|].
    intros [= <- _]. right; right. by eexists.
  - intros [= <- <-]. left.
    pose proof (dispatchAll_return _ _ _ _ _ _ _ _ _ Hdispatch) as ->.
    split; [done|]. by eapply dispatchAll_return_oversized.
Qed.

(** An error response is either the size error, which the [try] block
    returns after the lookup of an oversized file, or the answer of the
    [catch] block to the error that the [try] block has thrown: its message
    is [Error processing upload: ] followed by the message of that error
    ([Unknown error] if what was thrown is not an [Error]). *)
Theorem error_responses_are_of_two_kinds
    request context server settings schedule (message : string) :
  let run := uploadProcess request context server settings schedule in
  let body :=
    uploadProcess_try JSON_parse fileTypeFromBuffer isText Number_toString
      File_inherited request context server settings schedule in
  response run = Some (JsonError message) ->
  (completion body = Return (JsonError message)
   /\ message = ("File size is too large. Maximum allowed size is "
                 ++ Number_toString
                      (inject_Z (maxFileSize settings) / inject_Z (1024 * 1024))%Q
                 ++ "MB.")%string
   /\ exists fileKey (file : FileStream),
        EvLookup fileKey (Some file) ∈ events run
        /\ (maxFileSize settings < size file)%Z)
  \/ (exists e,
        completion body = Throw e
        /\ message = ("Error processing upload: " ++ errorMessage e)%string
        /\ events run = log body).
Proof.
  intros run body. subst run. unfold uploadProcess. fold body.
  unfold completion, log.
  destruct body as [[u|e|r] l] eqn:Hbody; simpl; [done| |].
  - intros [= <-]. right. exists e. split_and!; [done..|]. by rewrite app_nil_r.
  - intros [= ->]. left.
    apply uploadProcess_try_Return in Hbody
      as [[Hsize Hlookup]|[(d & e & [=])|(rs & [=])]].
    injection Hsize as ->. by split_and!.
Qed.

(** The engine receives the [query] of the parsed operations as it is, even
    when it is missing, and the value the context resolved to. *)
Theorem engine_receives_query_and_context
    request context server settings schedule rq cv :
  let run := uploadProcess request context server settings schedule in
  EvExecute rq cv ∈ events run ->
  context = inr cv
  /\ exists fd oprops,
      formData request = inr fd
      /\ field_parses fd "operations" oprops
      /\ req_query rq = default JUndefined (prop_get oprops "query").
Proof.
  intros run Hin. subst run.
  apply uploadProcess_executes in Hin
    as (fd & mprops & oprops & tasks & l1 & operations & l2
        & Hfd & _ & Hops & _ & Hjoin & Hctx & -> & _ & _).
  split; [done|]. exists fd, oprops. split_and!; [done..|].
  unfold Promise_all in Hjoin.
  destruct (first_rejection tasks) as [e|]; [done|].
  by apply resumeAll_Normal in Hjoin as (_ & -> & _).
Qed.
End Coverage.
Lemma processUpload_frame_witness :
  let operations :=
    {| query := JStr Demo.query_text;
       variables := VarsObject ClassObject None
                      [("caption", SlotValue (JStr "logo"));
                       ("file", SlotValue (JStr "client value"))] |} in
  exists operations' l,
    processUpload Demo.fileTypeFromBuffer Demo.isText Demo.logo_png "file"
      operations ["image/png"] = (Normal operations', l)
    /\ query operations' = JStr Demo.query_text
    /\ variables operations'
       = VarsObject ClassObject None
           [("caption", SlotValue (JStr "logo"));
            ("file", SlotUpload (handle Demo.logo_png "image/png"))]
    /\ vars_get (variables operations') "file"
       = Some (SlotUpload (handle Demo.logo_png "image/png")).
Proof.
  intros operations.
  destruct (processUpload_frame Demo.fileTypeFromBuffer Demo.isText
              Demo.logo_png "file" operations
              {| query := JStr Demo.query_text;
                 variables := VarsObject ClassObject None
                   [("caption", SlotValue (JStr "logo"));
                    ("file", SlotUpload (handle Demo.logo_png "image/png"))] |}
              ["image/png"]
              [EvStream Demo.logo_png;
               EvAssign "file" (handle Demo.logo_png "image/png")] eq_refl)
    as (Hquery & _ & Hbound & _).
  eexists _, _. split; [reflexivity|].
  split_and!; [exact Hquery | reflexivity | exact Hbound].
Defined.

Lemma bound_variable_parses_to_descriptor_witness :
  let operations := {| query := JStr Demo.query_text;
                       variables := VarsObject ClassObject None
                                      [("file", SlotValue JNull)] |} in
  exists operations' l slot d,
    processUpload Demo.fileTypeFromBuffer Demo.isText Demo.a_txt "file"
      operations ["text/plain"] = (Normal operations', l)
    /\ vars_get (variables operations') "file" = Some slot
    /\ GraphQLUpload.parseValue slot
       = (Normal (GraphQLUpload.Promise (Fulfilled d)), [])
    /\ streamToBuffer (createReadStream d tt)
       = String.list_byte_of_string "Hello, upload.".
Proof.
  intros operations.
  edestruct (bound_variable_parses_to_descriptor Demo.fileTypeFromBuffer
               Demo.isText Demo.a_txt "file" operations)
    with (allowedTypes := ["text/plain"])
    as (slot & d & Hget & Hparse & _ & _ & _ & _ & Hbytes); [reflexivity|].
  eexists _, _, slot, d. split; [reflexivity|].
  split_and!; [exact Hget | exact Hparse |]. by rewrite Hbytes.
Defined.

(** ** The further properties, run *)

Lemma disallowed_type_fails_witness :
  let run := Cases.run (Cases.request_of Demo.operations_text Demo.map_text Cases.report_pdf)
               Demo.context (Demo.server_of_kind "single") Demo.settings in
  response run
  = Some (JsonError
            "Error processing upload: File type application/pdf is not allowed. Allowed types: image/jpeg, image/png, text/plain")
  /\ executions (events run) = [].
Proof.
  intros run.
  destruct (disallowed_type_fails Cases.JSON_parse Demo.fileTypeFromBuffer
              Demo.isText Demo.Number_toString Demo.File_inherited
              (Cases.request_of Demo.operations_text Demo.map_text Cases.report_pdf)
              Demo.context (Demo.server_of_kind "single") Demo.settings []
              (Cases.form_of Demo.operations_text Demo.map_text Cases.report_pdf)
              [("0", JArr [JStr "variables.file"])] "0" Cases.report_pdf)
    as (_ & _ & Hexec).
  - reflexivity.
  - exists Demo.map_text, ClassObject. split; reflexivity.
  - apply list_elem_of_here.
  - vm_compute. reflexivity.
  - vm_compute. reflexivity.
  - split; [vm_compute; reflexivity | exact Hexec].
Defined.

Lemma upload_without_variables_fails_witness :
  let run := Cases.run (Cases.request_of Cases.bare_operations_text Demo.map_text Demo.a_txt)
               Demo.context (Demo.server_of_kind "single") Demo.settings in
  (exists message, response run = Some (JsonError message))
  /\ executions (events run) = [].
Proof.
  eapply (upload_without_variables_fails Cases.JSON_parse Demo.fileTypeFromBuffer
            Demo.isText Demo.Number_toString Demo.File_inherited
            (Cases.request_of Cases.bare_operations_text Demo.map_text Demo.a_txt)
            Demo.context (Demo.server_of_kind "single") Demo.settings []
            _ [("0", JArr [JStr "variables.file"])]
            [("query", JStr Demo.query_text)]).
  - reflexivity.
  - exists Demo.map_text, ClassObject. split; reflexivity.
  - exists Cases.bare_operations_text, ClassObject. split; reflexivity.
  - discriminate.
  - left. reflexivity.
Defined.

Lemma unusable_path_fails_witness :
  let run := Cases.run
               (Cases.request_of Demo.operations_text Cases.empty_paths_map_text Demo.a_txt)
               Demo.context (Demo.server_of_kind "single") Demo.settings in
  (exists message, response run = Some (JsonError message))
  /\ executions (events run) = [].
Proof.
  eapply (unusable_path_fails Cases.JSON_parse Demo.fileTypeFromBuffer
            Demo.isText Demo.Number_toString Demo.File_inherited
            (Cases.request_of Demo.operations_text Cases.empty_paths_map_text Demo.a_txt)
            Demo.context (Demo.server_of_kind "single") Demo.settings []
            _ [("0", JArr [])] "0" ClassArray []).
  - reflexivity.
  - exists Cases.empty_paths_map_text, ClassObject. split; reflexivity.
  - reflexivity.
  - intros path. discriminate.
Defined.

Lemma engine_rejection_is_answered_witness :
  let run := Cases.run Demo.request_no_upload Demo.context
               Cases.server_rejecting Demo.settings in
  EvExecute Demo.bare_request Demo.contextValue ∈ events run
  /\ response run = Some (JsonError "Error processing upload: engine down").
Proof.
  intros run.
  assert (Hin : EvExecute Demo.bare_request Demo.contextValue ∈ events run).
  { vm_compute. apply list_elem_of_here. }
  split; [exact Hin|].
  exact (engine_rejection_is_answered Cases.JSON_parse Demo.fileTypeFromBuffer
           Demo.isText Demo.Number_toString Demo.File_inherited Demo.request_no_upload Demo.context
           Cases.server_rejecting Demo.settings []
           Demo.bare_request Demo.contextValue (ThrownError "engine down")
           Hin eq_refl).
Defined.

Lemma broken_incremental_stream_is_answered_witness :
  let run := Cases.run Demo.request_no_upload Demo.context
               Cases.server_broken_stream Demo.settings in
  EvExecute Demo.bare_request Demo.contextValue ∈ events run
  /\ response run = Some (JsonError "Error processing upload: stream broken").
Proof.
  intros run.
  assert (Hin : EvExecute Demo.bare_request Demo.contextValue ∈ events run).
  { vm_compute. apply list_elem_of_here. }
  split; [exact Hin|].
  exact (broken_incremental_stream_is_answered Cases.JSON_parse
           Demo.fileTypeFromBuffer Demo.isText Demo.Number_toString Demo.File_inherited
           Demo.request_no_upload Demo.context Cases.server_broken_stream
           Demo.settings [] Demo.bare_request Demo.contextValue _ _
           Hin eq_refl eq_refl eq_refl).
Defined.

Lemma execution_means_all_bound_witness :
  let run := Demo.run Demo.request_colliding (Demo.server_of_kind "single")
               Demo.settings in
  dispatched (events run) = ["0"; "1"]
  /\ length (assignments (events run)) = 2%nat.
Proof.
  intros run.
  assert (Hin : exists rq, EvExecute rq Demo.contextValue ∈ events run).
  { eexists. vm_compute. do 8 apply list_elem_of_further. apply list_elem_of_here. }
  destruct Hin as [rq Hin].
  destruct (execution_means_all_bound Demo.JSON_parse Demo.fileTypeFromBuffer
              Demo.isText Demo.Number_toString Demo.File_inherited Demo.request_colliding Demo.context
              (Demo.server_of_kind "single") Demo.settings [] rq Demo.contextValue Hin)
    as (fd & mprops & Hfd & Hmap & Hd & Hlen).
  injection Hfd as <-.
  assert (mprops = [("0", JArr [JStr "variables.file"]);
                    ("1", JArr [JStr "variables.file"])]) as ->.
  { eapply (field_parses_inj Demo.JSON_parse); [exact Hmap|].
    exists Demo.colliding_map_text, ClassObject. split; reflexivity. }
  split; [exact Hd | exact Hlen].
Defined.

Lemma engine_receives_only_checked_uploads_witness :
  let run := Demo.run (Demo.request_with Demo.a_txt) (Demo.server_of_kind "single")
               Demo.settings in
  EvExecute Demo.bound_request Demo.contextValue ∈ events run
  /\ exists file : FileStream,
      vars_get (req_variables Demo.bound_request) "file"
      = Some (SlotUpload
                (handle file
                   (effectiveMimeType Demo.fileTypeFromBuffer Demo.isText file
                      (streamToBuffer (stream file)))))
      /\ (size file <= maxFileSize Demo.settings)%Z
      /\ invalidProperties file = false.
Proof.
  intros run.
  assert (Hin : EvExecute Demo.bound_request Demo.contextValue ∈ events run).
  { vm_compute. do 4 apply list_elem_of_further. apply list_elem_of_here. }
  split; [exact Hin|].
  destruct (engine_receives_only_checked_uploads Demo.JSON_parse
              Demo.fileTypeFromBuffer Demo.isText Demo.Number_toString Demo.File_inherited
              (Demo.request_with Demo.a_txt) Demo.context
              (Demo.server_of_kind "single") Demo.settings []
              Demo.bound_request Demo.contextValue "file"
              (handle Demo.a_txt "text/plain") Hin eq_refl)
    as (fd & mprops & fileKey & file & _ & _ & _ & _ & _ & Hu & Hsize & _ & Hvalid & _).
  exists file. split_and!; [by rewrite <- Hu | exact Hsize | exact Hvalid].
Defined.

Lemma only_checked_mapped_files_are_read_witness :
  let run := Demo.run (Demo.request_with Demo.a_txt) (Demo.server_of_kind "single")
               Demo.settings in
  EvStream Demo.a_txt ∈ events run
  /\ (size Demo.a_txt <= maxFileSize Demo.settings)%Z
  /\ invalidProperties Demo.a_txt = false.
Proof.
  intros run.
  assert (Hin : EvStream Demo.a_txt ∈ events run).
  { vm_compute. do 2 apply list_elem_of_further. apply list_elem_of_here. }
  split; [exact Hin|].
  destruct (only_checked_mapped_files_are_read Demo.JSON_parse
              Demo.fileTypeFromBuffer Demo.isText Demo.Number_toString Demo.File_inherited
              (Demo.request_with Demo.a_txt) Demo.context
              (Demo.server_of_kind "single") Demo.settings [] Demo.a_txt Hin)
    as (fd & mprops & fileKey & _ & _ & _ & _ & Hsize & Hvalid).
  split; [exact Hsize | exact Hvalid].
Defined.

Lemma error_responses_are_of_two_kinds_witness :
  let run := Demo.run Demo.request_without_file (Demo.server_of_kind "single")
               Demo.settings in
  let body :=
    uploadProcess_try Demo.JSON_parse Demo.fileTypeFromBuffer Demo.isText
      Demo.Number_toString Demo.File_inherited Demo.request_without_file
      Demo.context (Demo.server_of_kind "single") Demo.settings [] in
  response run
  = Some (JsonError
            "Error processing upload: Cannot read properties of undefined (reading 'size')")
  /\ completion body
     = Throw (TypeError "Cannot read properties of undefined (reading 'size')")
  /\ events run = log body.
Proof.
  intros run body.
  assert (Hresponse : response run
            = Some (JsonError
                      "Error processing upload: Cannot read properties of undefined (reading 'size')")).
  { vm_compute. reflexivity. }
  split; [exact Hresponse|].
  destruct (error_responses_are_of_two_kinds Demo.JSON_parse
              Demo.fileTypeFromBuffer Demo.isText Demo.Number_toString
              Demo.File_inherited Demo.request_without_file Demo.context
              (Demo.server_of_kind "single") Demo.settings [] _ Hresponse)
    as [(Hreturn & _)|(e & Hthrow & _ & Hevents)].
  - vm_compute in Hreturn. discriminate Hreturn.
  - split; [|exact Hevents]. vm_compute. reflexivity.
Defined.

Lemma engine_receives_query_and_context_witness :
  let run := Demo.run Demo.request_no_upload (Demo.server_of_kind "single")
               Demo.settings in
  EvExecute Demo.bare_request Demo.contextValue ∈ events run
  /\ Demo.context = inr Demo.contextValue.
Proof.
  intros run.
  assert (Hin : EvExecute Demo.bare_request Demo.contextValue ∈ events run).
  { vm_compute. apply list_elem_of_here. }
  split; [exact Hin|].
  exact (proj1 (engine_receives_query_and_context Demo.JSON_parse
                  Demo.fileTypeFromBuffer Demo.isText Demo.Number_toString Demo.File_inherited
                  Demo.request_no_upload Demo.context
                  (Demo.server_of_kind "single") Demo.settings []
                  Demo.bare_request Demo.contextValue Hin)).
Defined.

Lemma uploadProcess_no_response_witness :
  let run := Demo.run Demo.request_no_upload (Demo.server_of_kind "complete")
               Demo.settings in
  response run = None
  /\ exists rq cv body,
      EvExecute rq cv ∈ events run
      /\ executeOperation (Demo.server_of_kind "complete") rq cv
         = ExecutionResponse (Some body)
      /\ kind body <> "single" /\ kind body <> "incremental".
Proof.
  intros run.
  assert (Hnone : response run = None) by (vm_compute; reflexivity).
  split; [exact Hnone|].
  exact (uploadProcess_no_response Demo.JSON_parse Demo.fileTypeFromBuffer
           Demo.isText Demo.Number_toString Demo.File_inherited Demo.request_no_upload Demo.context
           (Demo.server_of_kind "complete") Demo.settings [] Hnone).
Defined.

(** A map entry that is a string and not a list of paths: its first
    character is taken for the path, so the file is bound to the variable
    [v]. *)
Example string_map_entry_binds_its_first_character :
  dispatched_variables
    (events (Cases.run
               (Cases.request_of Demo.operations_text Cases.string_map_text Demo.a_txt)
               Demo.context (Demo.server_of_kind "single") Demo.settings))
  = ["v"].
Proof. vm_compute. reflexivity. Qed.

(** ** The prototype chain, run *)

(** A field of the map named like a member of [Object.prototype]: the read
    of [files] gives that member, which has no size; the loop dispatches a
    task for it, and the validation of the file properties rejects the
    task. *)
Example inherited_member_fails_the_validation :
  Cases.run
    (Cases.request_of Demo.operations_text Cases.constructor_map_text Demo.a_txt)
    Demo.context (Demo.server_of_kind "single") Demo.settings
  = {| response := Some (JsonError "Error processing upload: Invalid file properties");
       events := [EvLookup "constructor" None;
                  EvDispatch "constructor" None "file"] |}.
Proof. vm_compute. reflexivity. Qed.

(** A path that ends in [__proto__]: the assignment makes the handle the
    prototype of the variables, and the engine receives variables that own
    no key. *)
Example proto_path_binds_no_own_variable :
  executions
    (events (Cases.run
               (Cases.request_of Demo.operations_text Cases.proto_map_text Demo.a_txt)
               Demo.context (Demo.server_of_kind "single") Demo.settings))
  = [({| req_query := JStr Demo.query_text;
         req_variables :=
           VarsObject ClassObject (Some (handle Demo.a_txt "text/plain")) [] |},
      Demo.contextValue)].
Proof. vm_compute. reflexivity. Qed.

(** Variables that are an array, and a path that ends in [length]: the
    assignment throws, and the engine is not called. *)
Example length_of_array_variables_fails :
  let run :=
    Cases.run
      (Cases.request_of Cases.array_operations_text Cases.length_map_text Demo.a_txt)
      Demo.context (Demo.server_of_kind "single") Demo.settings in
  response run = Some (JsonError "Error processing upload: Invalid array length")
  /\ assignments (events run) = []
  /\ executions (events run) = [].
Proof. vm_compute. by split_and!. Qed.

(** A file uploaded under the name [__proto__] becomes the prototype of
    [files]: it is read back under that name, and [files] owns nothing. *)
Example file_named_proto_is_the_prototype :
  let files := extractFiles [("__proto__", EntryFile Demo.a_txt)] in
  files_own files = ∅
  /\ files_proto files = Some Demo.a_txt
  /\ files !! "__proto__" = Some Demo.a_txt.
Proof. by split_and!. Qed.
